(** * n8n-g4f-proxy: the gateway service [AppService] (src/app.service.ts)

    A shallow embedding of the three operations of the service
    ([getModels], [getProviders], [postCompletions]) and of its private
    helper [safeStringify], followed by the properties of the model-list
    normalisation, the provider filter, the rendering, the header
    passthrough and the body mutation.

    JavaScript values are a tree type [JsVal]; an object is the list of its
    own properties in iteration order.  Code that can raise runs in a small
    state-and-exception monad [M] whose state records the log lines written,
    the requests sent upstream and the heap cell of the request body. *)

From Stdlib Require Import List String Ascii ZArith Bool Lia PeanoNat.
From Stdlib Require Import Permutation DecimalString.
Import ListNotations.
Open Scope string_scope.

(** ** JavaScript values *)

(** Numbers are the integer-valued ones (their decimal rendering is the
    runtime's for the safe integers); strings are sequences of 8-bit code
    units.  [JUndefined] is a value of the language that no JSON text
    denotes. *)
#[local] Unset Elimination Schemes.
Inductive JsVal : Type :=
| JUndefined
| JNull
| JBool (b : bool)
| JNum (z : Z)
| JStr (s : string)
| JArr (items : list JsVal)
| JObj (props : list (string * JsVal)).
#[local] Set Elimination Schemes.

Definition Props := list (string * JsVal).

(** [typeof v] *)
Definition typeof (v : JsVal) : string :=
  match v with
  | JUndefined => "undefined"
  | JNull => "object"
  | JBool _ => "boolean"
  | JNum _ => "number"
  | JStr _ => "string"
  | JArr _ => "object"
  | JObj _ => "object"
  end.

(** [Array.isArray(v)] *)
Definition Array_isArray (v : JsVal) : bool :=
  match v with JArr _ => true | _ => false end.

(** ToBoolean, as used by [&&], [||], [!] and [?:]. *)
Definition truthy (v : JsVal) : bool :=
  match v with
  | JUndefined | JNull => false
  | JBool b => b
  | JNum z => negb (Z.eqb z 0)
  | JStr s => negb (String.eqb s EmptyString)
  | JArr _ | JObj _ => true
  end.

(** [a || b] *)
Definition js_or (a b : JsVal) : JsVal := if truthy a then a else b.

(** Own-property lookup in a property list. *)
Fixpoint props_get (o : Props) (k : string) : JsVal :=
  match o with
  | [] => JUndefined
  | (k', v) :: o' => if String.eqb k' k then v else props_get o' k
  end.

(** [o[k] = v] on an ordinary object: an existing property keeps its place,
    a new one goes last. *)
Fixpoint props_set (o : Props) (k : string) (v : JsVal) : Props :=
  match o with
  | [] => [(k, v)]
  | (k', v') :: o' =>
      if String.eqb k' k then (k', v) :: o' else (k', v') :: props_set o' k v
  end.

(** [Object.keys], [Object.values], [Object.entries] of a value that is
    known to be a non-array object; other values have no own enumerable
    string-keyed properties the code looks at. *)
Definition Object_entries (v : JsVal) : Props :=
  match v with JObj o => o | _ => [] end.
Definition Object_keys (v : JsVal) : list string := map fst (Object_entries v).
Definition Object_values (v : JsVal) : list JsVal := map snd (Object_entries v).

(** ** Strings *)

Definition quote_char : ascii := ascii_of_nat 34.
Definition backslash_char : ascii := ascii_of_nat 92.

Definition string_of_Z (z : Z) : string := NilZero.string_of_int (Z.to_int z).
Definition string_of_nat (n : nat) : string := string_of_Z (Z.of_nat n).

Definition lower_ascii (c : ascii) : ascii :=
  let n := nat_of_ascii c in
  if (65 <=? n)%nat && (n <=? 90)%nat then ascii_of_nat (n + 32) else c.

(** [s.toLowerCase()] is the runtime's and follows the Unicode case
    mapping; the service takes it as a parameter.  [asciiLower] is what it
    does on a string of ASCII characters, and runs the service on such
    strings. *)
Fixpoint asciiLower (s : string) : string :=
  match s with
  | EmptyString => EmptyString
  | String c s' => String (lower_ascii c) (asciiLower s')
  end.

Fixpoint join (sep : string) (l : list string) : string :=
  match l with
  | [] => EmptyString
  | [x] => x
  | x :: l' => x ++ sep ++ join sep l'
  end.

(** [String(v)], [None] when the conversion raises a TypeError.  Arrays
    join the strings of their elements with a comma, [null] and
    [undefined] elements giving the empty string, and raise when an
    element does.  An object is converted by its [toString]: the inherited
    one gives the fixed tag; an own property of that name, which in a value
    read from JSON is never a function, leaves no way to a primitive and
    the conversion raises. *)
Fixpoint js_String (v : JsVal) : option string :=
  match v with
  | JUndefined => Some "undefined"
  | JNull => Some "null"
  | JBool true => Some "true"
  | JBool false => Some "false"
  | JNum z => Some (string_of_Z z)
  | JStr s => Some s
  | JArr items =>
      option_map (join ",")
        ((fix elems (l : list JsVal) : option (list string) :=
            match l with
            | [] => Some []
            | x :: l' =>
                match
                  match x with
                  | JUndefined | JNull => Some EmptyString
                  | _ => js_String x
                  end,
                  elems l'
                with
                | Some t, Some r => Some (t :: r)
                | _, _ => None
                end
            end) items)
  | JObj props =>
      if existsb (String.eqb "toString") (map fst props) then None
      else Some "[object Object]"
  end.

(** Template-literal interpolation of an optional string
    ([process.env.X] is a string or [undefined]). *)
Definition interp (o : option string) : string :=
  match o with Some s => s | None => "undefined" end.

(** *** JSON.stringify *)

Definition hex_digit (n : nat) : ascii :=
  if (n <? 10)%nat then ascii_of_nat (48 + n) else ascii_of_nat (87 + n).

Definition json_escape_char (c : ascii) : string :=
  let n := nat_of_ascii c in
  if (n =? 34)%nat then String backslash_char (String quote_char EmptyString)
  else if (n =? 92)%nat then String backslash_char (String backslash_char EmptyString)
  else if (n =? 8)%nat then String backslash_char "b"
  else if (n =? 12)%nat then String backslash_char "f"
  else if (n =? 10)%nat then String backslash_char "n"
  else if (n =? 13)%nat then String backslash_char "r"
  else if (n =? 9)%nat then String backslash_char "t"
  else if (n <? 32)%nat then
    String backslash_char
      ("u00" ++ String (hex_digit (n / 16)) (String (hex_digit (n mod 16)) EmptyString))
  else String c EmptyString.

Fixpoint json_escape (s : string) : string :=
  match s with
  | EmptyString => EmptyString
  | String c s' => json_escape_char c ++ json_escape s'
  end.

Definition json_quote (s : string) : string :=
  String quote_char (json_escape s ++ String quote_char EmptyString).

(** [JSON.stringify(v)]: [None] stands for the result [undefined], which is
    what the top-level value [undefined] gives.  Inside an array
    [undefined] is written as [null]; inside an object the property is
    left out. *)
Fixpoint JSON_stringify (v : JsVal) : option string :=
  match v with
  | JUndefined => None
  | JNull => Some "null"
  | JBool true => Some "true"
  | JBool false => Some "false"
  | JNum z => Some (string_of_Z z)
  | JStr s => Some (json_quote s)
  | JArr items =>
      Some ("[" ++ join ","
        ((fix elems (l : list JsVal) : list string :=
            match l with
            | [] => []
            | x :: l' =>
                match JSON_stringify x with
                | Some t => t
                | None => "null"
                end :: elems l'
            end) items) ++ "]")
  | JObj props =>
      Some ("{" ++ join ","
        ((fix members (l : Props) : list string :=
            match l with
            | [] => []
            | (k, x) :: l' =>
                match JSON_stringify x with
                | Some t => (json_quote k ++ ":" ++ t) :: members l'
                | None => members l'
                end
            end) props) ++ "}")
  end.

(** ** Effects: log, upstream requests, heap of request bodies *)

Inductive LogLevel := LDebug | LWarn | LError.
Record LogLine := mkLog { level : LogLevel; message : string }.

Definition loc := nat.

Inductive HttpMethod := GET | POST.
Inductive ResponseType := RtJson | RtStream.

(** What [HttpService.get] / [HttpService.post] is given.  The body of a
    POST is the object itself, that is, its heap location. *)
Record UpstreamRequest := mkReq {
  req_method : HttpMethod;
  req_url : string;
  req_headers : list (string * string);
  req_body : option loc;
  req_responseType : ResponseType
}.

Record AxiosResponse := mkResp { status : Z; data : JsVal }.

Record World := mkWorld {
  heap : list Props;
  logs : list LogLine;
  sent : list UpstreamRequest
}.

Inductive Exn :=
| TypeError
| SyntaxError
| NotFoundException (msg : string).

Inductive Res (A : Type) :=
| Ret (a : A)
| Throw (e : Exn).
Arguments Ret {A} a.
Arguments Throw {A} e.

Definition M (A : Type) : Type := World -> Res A * World.

Definition ret {A} (a : A) : M A := fun w => (Ret a, w).
Definition throw {A} (e : Exn) : M A := fun w => (Throw e, w).
Definition bind {A B} (m : M A) (k : A -> M B) : M B :=
  fun w =>
    match m w with
    | (Ret a, w') => k a w'
    | (Throw e, w') => (Throw e, w')
    end.
(** [try { m } catch (e) { h e }] *)
Definition try_catch {A} (m : M A) (h : Exn -> M A) : M A :=
  fun w =>
    match m w with
    | (Ret a, w') => (Ret a, w')
    | (Throw e, w') => h e w'
    end.

Declare Scope js_scope.
Delimit Scope js_scope with js.
Notation "x <- c ;; k" := (bind c (fun x => k))
  (at level 100, c at next level, right associativity) : js_scope.
Notation "c ;;; k" := (bind c (fun _ => k))
  (at level 100, right associativity) : js_scope.
Open Scope js_scope.

(** [v.k]: reading a property of [null] or [undefined] raises a TypeError;
    numbers, booleans, strings and arrays have none of the property names
    this service reads ([models], [data], [name], [providers], [image]). *)
Definition getProp (v : JsVal) (k : string) : M JsVal :=
  match v with
  | JUndefined | JNull => throw TypeError
  | JObj o => ret (props_get o k)
  | _ => ret JUndefined
  end.

Definition logger (lv : LogLevel) (msg : string) : M unit :=
  fun w => (Ret tt, mkWorld (heap w) (logs w ++ [mkLog lv msg]) (sent w)).

(** [s.length] of the result of [JSON.stringify]: a TypeError when that
    result is [undefined]. *)
Definition string_or_throw (o : option string) : M string :=
  match o with Some s => ret s | None => throw TypeError end.

(** [String(v)] as a step that may raise. *)
Definition ToString (v : JsVal) : M string :=
  match js_String v with Some s => ret s | None => throw TypeError end.

(** ** [safeStringify] (app.service.ts, lines 12-23) *)

Definition truncated_suffix : string := "... (truncated)".

Definition safeStringify (obj : JsVal) (max : nat) : M string :=
  try_catch
    (s <- match obj with
          | JStr s => ret s
          | _ => string_or_throw (JSON_stringify obj)
          end ;;
     ret (if (max <? String.length s)%nat
          then substring 0 max s ++ truncated_suffix
          else s))
    (fun _ =>
       try_catch (ToString obj) (fun _ => ret "[unserializable]")).

(** ** The service *)

(** [process.env]: each variable is a string or [undefined]. *)
Record Env := mkEnv {
  LLM_UPSTREAM : option string;
  LLM_PROXY_PROVIDER : option string
}.

(** Inbound request headers, keyed by lower-case name. *)
Definition Headers := list (string * string).

Fixpoint header_get (h : Headers) (k : string) : option string :=
  match h with
  | [] => None
  | (k', v) :: h' => if String.eqb k' k then Some v else header_get h' k
  end.

(** [auth ? { Authorization: auth } : {}]: the empty string is falsy. *)
Definition auth_headers (auth : option string) : list (string * string) :=
  match auth with
  | Some a => if String.eqb a EmptyString then [] else [("Authorization", a)]
  | None => []
  end.

Definition array_items (v : JsVal) : list JsVal :=
  match v with JArr l => l | _ => [] end.

(** [Map<string, string[]>]: entries in insertion order; setting a key
    that is present keeps its place. *)
Definition ModelMap := list (string * list string).

Fixpoint Map_get (m : ModelMap) (k : string) : option (list string) :=
  match m with
  | [] => None
  | (k', v) :: m' => if String.eqb k' k then Some v else Map_get m' k
  end.

Fixpoint Map_set (m : ModelMap) (k : string) (v : list string) : ModelMap :=
  match m with
  | [] => [(k, v)]
  | (k', v') :: m' =>
      if String.eqb k' k then (k', v) :: m' else (k', v') :: Map_set m' k v
  end.

(** [Array.prototype.filter] and [map] with a callback that may raise. *)
Fixpoint Array_filter (f : JsVal -> M bool) (l : list JsVal) : M (list JsVal) :=
  match l with
  | [] => ret []
  | x :: l' =>
      b <- f x ;;
      r <- Array_filter f l' ;;
      ret (if b then x :: r else r)
  end.

Fixpoint Array_map (f : JsVal -> M JsVal) (l : list JsVal) : M (list JsVal) :=
  match l with
  | [] => ret []
  | x :: l' =>
      y <- f x ;;
      r <- Array_map f l' ;;
      ret (y :: r)
  end.

(** [d && Array.isArray(d.k)] *)
Definition has_array_field (d : JsVal) (k : string) : M bool :=
  if truthy d then (v <- getProp d k ;; ret (Array_isArray v)) else ret false.

(** Lines 68-72: every own value is an array whose items are all strings. *)
Definition isProviderKeyedFormat (d : JsVal) : bool :=
  forallb
    (fun value =>
       Array_isArray value &&
       forallb (fun item => String.eqb (typeof item) "string") (array_items value))
    (Object_values d).

(** Lines 81-86: the body of the inner loop. *)
Definition addModel (providerName : string) (modelMap : ModelMap)
    (modelName : JsVal) : ModelMap :=
  match modelName with
  | JStr name =>
      let existingProviders :=
        match Map_get modelMap name with Some l => l | None => [] end in
      Map_set modelMap name (existingProviders ++ [providerName])
  | _ => modelMap
  end.

(** Lines 79-88: the body of the outer loop. *)
Definition addProvider (modelMap : ModelMap) (entry : string * JsVal) : ModelMap :=
  let '(providerName, modelNames) := entry in
  if Array_isArray modelNames
  then fold_left (addModel providerName) (array_items modelNames) modelMap
  else modelMap.

Definition buildModelMap (d : JsVal) : ModelMap :=
  fold_left addProvider (Object_entries d) [].

(** Lines 91-94: [({ name, providers })]. *)
Definition modelObject (e : string * list string) : JsVal :=
  JObj [("name", JStr (fst e)); ("providers", JArr (map JStr (snd e)))].

(** Lines 136 and 150-155. *)
Definition renderModel (model : JsVal) : M JsVal :=
  name <- getProp model "name" ;;
  image <- getProp model "image" ;;
  ret (JObj [("id", name);
             ("object", JStr "model");
             ("created", JNum 0);
             ("owned_by", JStr EmptyString);
             ("image", js_or image (JBool false));
             ("provider", JBool true)]).

(** Lines 123-132: the provider list of one record.  [model.providers] is
    read once here; the source reads it again in each test, with the same
    outcome. *)
Definition recordProviders (model : JsVal) : M (list JsVal) :=
  p <- getProp model "providers" ;;
  if Array_isArray p then ret (array_items p)
  else if truthy p && String.eqb (typeof p) "object"
       then ret (map JStr (Object_keys p))
  else if String.eqb (typeof p) "string" then ret [p]
  else ret [].

(** [Array.prototype.some] with a callback that may raise: the items are
    tried in order and the first one accepted ends the search. *)
Fixpoint Array_some (f : JsVal -> M bool) (l : list JsVal) : M bool :=
  match l with
  | [] => ret false
  | x :: l' =>
      b <- f x ;;
      if b then ret true else Array_some f l'
  end.

(** Lines 121-137: the filter callback. *)
Definition matchesProvider (toLowerCase : string -> string)
    (providerKey : string) (model : JsVal) : M bool :=
  providers <- recordProviders model ;;
  Array_some
    (fun provider =>
       s <- ToString provider ;;
       ret (String.eqb (toLowerCase s) providerKey))
    providers.

Definition noModelsFoundMsg (providerKey : string) (upstream : option string)
    (sample : string) : string :=
  "No models found for provider '" ++ providerKey ++ "' from upstream "
    ++ interp upstream ++ ". Upstream response shape: " ++ sample.

Definition noModelsMatchedMsg (providerKey : string) (upstream : option string)
    (sample : string) : string :=
  "No models matched provider '" ++ providerKey ++ "' in upstream "
    ++ interp upstream ++ ". Sample upstream models: " ++ sample.

Section AppService.

(** The runtime's [toLowerCase] and [JSON.parse] ([None]: it raises a
    SyntaxError), the upstream's answer to a request, and the process
    environment. *)
Variable toLowerCase : string -> string.
Variable JSON_parse : string -> option JsVal.
Variable upstream_answer : UpstreamRequest -> AxiosResponse.
Variable env : Env.

Definition JSON_parse_M (s : string) : M JsVal :=
  match JSON_parse s with Some v => ret v | None => throw SyntaxError end.

(** [this.http.get(url, { headers })] awaited, for a call that the
    upstream answers: [upstream_answer] is the response of a request that
    succeeds.  A transport error or an error status, on which the awaited
    call rejects, is not part of this model. *)
Definition http_get (url : string) (headers : list (string * string))
  : M AxiosResponse :=
  fun w =>
    let r := mkReq GET url headers None RtJson in
    (Ret (upstream_answer r), mkWorld (heap w) (logs w) (sent w ++ [r])).

(** Subscribing to the observable a [this.http.post] returned. *)
Definition subscribe (r : UpstreamRequest) : M JsVal :=
  fun w =>
    (Ret (data (upstream_answer r)), mkWorld (heap w) (logs w) (sent w ++ [r])).

Definition unexpectedShape (url : string) (d : JsVal) : M (list JsVal) :=
  s <- safeStringify d 1000 ;;
  logger LWarn
    ("Unexpected models response shape from upstream " ++ url ++ ": " ++ s) ;;;
  ret [].

(** Lines 43-110 of [getModels]: [resp.data] to the array [models]. *)
Definition normalizeModels (url : string) (d : JsVal) : M (list JsVal) :=
  if Array_isArray d then ret (array_items d)
  else
    hasModels <- has_array_field d "models" ;;
    if hasModels then (m <- getProp d "models" ;; ret (array_items m))
    else
      hasData <- has_array_field d "data" ;;
      if hasData then (m <- getProp d "data" ;; ret (array_items m))
      else if String.eqb (typeof d) "string" then
        try_catch
          (text <- ToString d ;;
           parsed <- JSON_parse_M text ;;
           if Array_isArray parsed then ret (array_items parsed)
           else
             pModels <- has_array_field parsed "models" ;;
             if pModels then (m <- getProp parsed "models" ;; ret (array_items m))
             else
               pData <- has_array_field parsed "data" ;;
               if pData then (m <- getProp parsed "data" ;; ret (array_items m))
               else ret [])
          (fun _ =>
             s <- safeStringify d 500 ;;
             logger LWarn
               ("Unable to parse string response from upstream " ++ url
                  ++ ": " ++ s) ;;;
             ret [])
      else if truthy d && String.eqb (typeof d) "object" then
        if isProviderKeyedFormat d then
          let modelMap := buildModelMap d in
          logger LDebug
            ("Transformed provider-keyed format: "
               ++ string_of_nat (List.length modelMap)
               ++ " unique models from "
               ++ string_of_nat (List.length (Object_keys d))
               ++ " providers") ;;;
          ret (map modelObject modelMap)
        else unexpectedShape url d
      else unexpectedShape url d.

Definition providerKey : string :=
  toLowerCase
    (match LLM_PROXY_PROVIDER env with Some s => s | None => EmptyString end).

Definition modelsUrl : string := interp (LLM_UPSTREAM env) ++ "/backend-api/v2/models".

(** Lines 112-157 of [getModels]: the two not-found checks around the
    filter, then the rendering. *)
Definition filterAndRender (d : JsVal) (models : list JsVal) : M JsVal :=
  (if (List.length models =? 0)%nat then
     sample <- safeStringify d 1000 ;;
     let msg := noModelsFoundMsg providerKey (LLM_UPSTREAM env) sample in
     logger LError msg ;;;
     throw (NotFoundException msg)
   else ret tt) ;;;
  filteredModels <- Array_filter (matchesProvider toLowerCase providerKey) models ;;
  (if (List.length filteredModels =? 0)%nat then
     sample <- safeStringify (JArr (firstn 5 models)) 1000 ;;
     let msg := noModelsMatchedMsg providerKey (LLM_UPSTREAM env) sample in
     logger LError msg ;;;
     throw (NotFoundException msg)
   else ret tt) ;;;
  rendered <- Array_map renderModel filteredModels ;;
  ret (JObj [("object", JStr "list"); ("data", JArr rendered)]).

Definition getModels (headers : Headers) : M JsVal :=
  let auth := header_get headers "authorization" in
  resp <- http_get modelsUrl (auth_headers auth) ;;
  logger LDebug
    ("Fetched models from upstream " ++ modelsUrl ++ " - status: "
       ++ string_of_Z (status resp) ++ ", dataType: " ++ typeof (data resp)) ;;;
  models <- normalizeModels modelsUrl (data resp) ;;
  filterAndRender (data resp) models.

Definition getProviders : M JsVal :=
  let url := interp (LLM_UPSTREAM env) ++ "/v1/providers" in
  response <- http_get url [] ;;
  ret (data response).

(** [body['provider'] = provider] on the object the caller passed:
    [None] is a body that is [undefined]. *)
Definition setBodyProp (body : option loc) (k : string) (v : JsVal) : M unit :=
  fun w =>
    match body with
    | None => (Throw TypeError, w)
    | Some l =>
        match nth_error (heap w) l with
        | None => (Throw TypeError, w)
        | Some o =>
            (Ret tt,
             mkWorld (firstn l (heap w) ++ props_set o k v :: skipn (S l) (heap w))
                     (logs w) (sent w))
        end
    end.

Definition configuredProvider : JsVal :=
  match LLM_PROXY_PROVIDER env with Some p => JStr p | None => JUndefined end.

(** The observable returned is the request that a subscription sends. *)
Definition postCompletions (body : option loc) (headers : Headers)
  : M UpstreamRequest :=
  let auth := header_get headers "authorization" in
  let url := interp (LLM_UPSTREAM env) ++ "/v1/chat/completions" in
  setBodyProp body "provider" configuredProvider ;;;
  ret (mkReq POST url
         ([("Accept", "application/json"); ("Content-Type", "application/json")]
            ++ auth_headers auth)
         body RtStream).

(** The controller's handlers (app.controller.ts): [body] and [headers]
    are [req.body] and [req.headers] of the inbound request.  The
    providers handler does not look at the request. *)
Definition controller_getModels (headers : Headers) : M JsVal :=
  getModels headers.

Definition controller_getProviders (headers : Headers) : M JsVal :=
  getProviders.

Definition controller_postCompletions (body : option loc) (headers : Headers)
  : M JsVal :=
  obs <- postCompletions body headers ;;
  subscribe obs.

End AppService.

(** ** Reference definitions

    Pure descriptions of what the effectful code computes, used to state
    the properties. *)

(** What [safeStringify] returns. *)
Definition truncate (max : nat) (s : string) : string :=
  if (max <? String.length s)%nat then substring 0 max s ++ truncated_suffix else s.

Definition sample (v : JsVal) (max : nat) : string :=
  match v with
  | JStr s => truncate max s
  | _ =>
      match JSON_stringify v with
      | Some s => truncate max s
      | None =>
          match js_String v with
          | Some s => s
          | None => "[unserializable]"
          end
      end
  end.

(** The six payload shapes of the normaliser, in its order of detection. *)
Inductive Shape :=
| Sequence (items : list JsVal)
| ObjectWithModelsField (items : list JsVal)
| ObjectWithDataField (items : list JsVal)
| EncodedString (text : string)
| ProviderKeyedMap (entries : Props)
| Unrecognized.

Definition classify (d : JsVal) : Shape :=
  match d with
  | JArr items => Sequence items
  | JObj o =>
      match props_get o "models" with
      | JArr items => ObjectWithModelsField items
      | _ =>
          match props_get o "data" with
          | JArr items => ObjectWithDataField items
          | _ => if isProviderKeyedFormat d then ProviderKeyedMap o else Unrecognized
          end
      end
  | JStr text => EncodedString text
  | _ => Unrecognized
  end.

(** Rules (1)-(3) only, as re-applied to a parsed string. *)
Definition rules_1_to_3 (d : JsVal) : list JsVal :=
  match classify d with
  | Sequence items | ObjectWithModelsField items | ObjectWithDataField items => items
  | _ => []
  end.

Definition canonical (JSON_parse : string -> option JsVal) (d : JsVal) : list JsVal :=
  match classify d with
  | Sequence items | ObjectWithModelsField items | ObjectWithDataField items => items
  | EncodedString text =>
      match JSON_parse text with
      | Some parsed => rules_1_to_3 parsed
      | None => []
      end
  | ProviderKeyedMap o => map modelObject (buildModelMap (JObj o))
  | Unrecognized => []
  end.

(** Reading a field of a record that is not [null] or [undefined]. *)
Definition field (r : JsVal) (k : string) : JsVal :=
  match r with JObj o => props_get o k | _ => JUndefined end.

Definition nullish (v : JsVal) : bool :=
  match v with JUndefined | JNull => true | _ => false end.

(** The values of [providers] that are neither array, object nor string. *)
Definition other_shape (v : JsVal) : bool :=
  match v with
  | JUndefined | JNull | JBool _ | JNum _ => true
  | _ => false
  end.

(** The provider list the filter derives from a record's [providers]. *)
Definition providersOf (r : JsVal) : list JsVal :=
  match field r "providers" with
  | JArr items => items
  | JObj o => map JStr (map fst o)
  | JStr s => [JStr s]
  | _ => []
  end.

(** The comparison of line 135 on one provider: [None] when its string
    conversion raises. *)
Definition providerIs (toLowerCase : string -> string) (key : string)
    (p : JsVal) : option bool :=
  match js_String p with
  | Some s => Some (String.eqb (toLowerCase s) key)
  | None => None
  end.

(** [providers.some(...)]: the providers are tried in order up to the first
    that is the key; [None] when a conversion raises before that. *)
Fixpoint someProvider (toLowerCase : string -> string) (key : string)
    (ps : list JsVal) : option bool :=
  match ps with
  | [] => Some false
  | p :: ps' =>
      match providerIs toLowerCase key p with
      | None => None
      | Some true => Some true
      | Some false => someProvider toLowerCase key ps'
      end
  end.

(** What the filter callback gives on a record: [None] when it raises. *)
Definition matchesKey (toLowerCase : string -> string) (key : string)
    (r : JsVal) : option bool :=
  if nullish r then None else someProvider toLowerCase key (providersOf r).

(** What the filter gives on a list: [None] when the callback raises on
    one of its records. *)
Fixpoint filterOutcome (toLowerCase : string -> string) (key : string)
    (models : list JsVal) : option (list JsVal) :=
  match models with
  | [] => Some []
  | r :: rest =>
      match matchesKey toLowerCase key r, filterOutcome toLowerCase key rest with
      | Some b, Some kept => Some (if b then r :: kept else kept)
      | _, _ => None
      end
  end.

Definition rendered (r : JsVal) : JsVal :=
  JObj [("id", field r "name");
        ("object", JStr "model");
        ("created", JNum 0);
        ("owned_by", JStr EmptyString);
        ("image", js_or (field r "image") (JBool false));
        ("provider", JBool true)].

(** Equality of strings up to the case of ASCII letters, code unit by code
    unit. *)
Definition is_upper (n : nat) : bool := (65 <=? n)%nat && (n <=? 90)%nat.

Definition same_letter (a b : ascii) : bool :=
  let x := nat_of_ascii a in
  let y := nat_of_ascii b in
  (x =? y)%nat || (is_upper x && (y =? x + 32)%nat) || (is_upper y && (x =? y + 32)%nat).

Fixpoint eq_ignore_case (s t : string) : bool :=
  match s, t with
  | EmptyString, EmptyString => true
  | String a s', String b t' => same_letter a b && eq_ignore_case s' t'
  | _, _ => false
  end.

(** The provider-keyed inversion as the specification words it: the
    names of the providers whose list names the model, in the order of the
    payload's keys. *)
Definition names_model (m : string) (v : JsVal) : bool :=
  existsb (fun it => match it with JStr s => String.eqb s m | _ => false end)
          (array_items v).

Definition spec_providers (o : Props) (m : string) : list string :=
  map fst (filter (fun e => names_model m (snd e)) o).

(** How many times a provider's list names the model. *)
Definition occurrences (m : string) (v : JsVal) : nat :=
  List.length
    (filter (fun it => match it with JStr s => String.eqb s m | _ => false end)
            (array_items v)).

Definition repeated_providers (o : Props) (m : string) : list string :=
  flat_map (fun e => repeat (fst e) (occurrences m (snd e))) o.

Definition recordNames (l : list JsVal) : list JsVal :=
  map (fun r => field r "name") l.

(** The model names a provider-keyed payload mentions. *)
Definition mentions (o : Props) (m : string) : Prop :=
  exists p v, In (p, v) o /\ In (JStr m) (array_items v).

(** The logging steps touch neither the heap nor the requests sent. *)
Definition same_effects (w w' : World) : Prop :=
  heap w' = heap w /\ sent w' = sent w.

(** Appending to an entry that may be absent. *)
Definition extend (a : option (list string)) (extra : list string)
  : option (list string) :=
  match a with
  | Some l => Some (l ++ extra)%list
  | None => match extra with [] => None | _ => Some extra end
  end.

(** The payloads the normaliser cannot interpret: neither array, object
    nor string, or a string that [JSON.parse] rejects. *)
Definition uninterpretable (JSON_parse : string -> option JsVal) (d : JsVal) : bool :=
  match d with
  | JArr _ | JObj _ => false
  | JStr s => match JSON_parse s with Some _ => false | None => true end
  | _ => true
  end.

(** The configured provider as [getModels] reads it, before lower-casing. *)
Definition configuredKey (env : Env) : string :=
  match LLM_PROXY_PROVIDER env with Some s => s | None => EmptyString end.

(** The request [getModels] sends. *)
Definition modelsRequest (env : Env) (headers : Headers) : UpstreamRequest :=
  mkReq GET (modelsUrl env) (auth_headers (header_get headers "authorization"))
        None RtJson.

Definition modelList (items : list JsVal) : JsVal :=
  JObj [("object", JStr "list"); ("data", JArr items)].

(** What lines 112-157 do with the payload [d] and its canonical list. *)
Definition expectedOutcome (toLowerCase : string -> string) (env : Env)
    (d : JsVal) (models : list JsVal) : Res JsVal :=
  match models with
  | [] =>
      Throw (NotFoundException
               (noModelsFoundMsg (providerKey toLowerCase env) (LLM_UPSTREAM env)
                  (sample d 1000)))
  | _ :: _ =>
      match filterOutcome toLowerCase (providerKey toLowerCase env) models with
      | None => Throw TypeError
      | Some [] =>
          Throw (NotFoundException
                   (noModelsMatchedMsg (providerKey toLowerCase env) (LLM_UPSTREAM env)
                      (sample (JArr (firstn 5 models)) 1000)))
      | Some kept => Ret (modelList (map rendered kept))
      end
  end.

(** ** A JSON reader

    The properties below hold for whatever [JSON.parse] does; to run the
    service on concrete texts this reader covers the JSON texts whose
    numbers are written as plain integers and whose strings use no [\u]
    escape.  A repeated
    key keeps its first place and takes the last value, as in the runtime. *)
Module JsonReader.

Definition is_ws (c : ascii) : bool :=
  let n := nat_of_ascii c in
  (n =? 32)%nat || (n =? 9)%nat || (n =? 10)%nat || (n =? 13)%nat.

Fixpoint skip_ws (s : string) : string :=
  match s with
  | String c r => if is_ws c then skip_ws r else s
  | EmptyString => s
  end.

Definition unescape (c : ascii) : option ascii :=
  let n := nat_of_ascii c in
  if (n =? 34)%nat || (n =? 92)%nat || (n =? 47)%nat then Some c
  else if (n =? 98)%nat then Some (ascii_of_nat 8)
  else if (n =? 102)%nat then Some (ascii_of_nat 12)
  else if (n =? 110)%nat then Some (ascii_of_nat 10)
  else if (n =? 114)%nat then Some (ascii_of_nat 13)
  else if (n =? 116)%nat then Some (ascii_of_nat 9)
  else None.

(** The characters of a string literal after its opening quote. *)
Fixpoint read_chars (s : string) : option (string * string) :=
  match s with
  | EmptyString => None
  | String c r =>
      let n := nat_of_ascii c in
      if (n =? 34)%nat then Some (EmptyString, r)
      else if (n <? 32)%nat then None
      else if (n =? 92)%nat then
        match r with
        | String e r' =>
            match unescape e, read_chars r' with
            | Some x, Some (t, rest) => Some (String x t, rest)
            | _, _ => None
            end
        | EmptyString => None
        end
      else
        match read_chars r with
        | Some (t, rest) => Some (String c t, rest)
        | None => None
        end
  end.

Definition digit (c : ascii) : option Z :=
  let n := nat_of_ascii c in
  if (48 <=? n)%nat && (n <=? 57)%nat then Some (Z.of_nat (n - 48)) else None.

Fixpoint read_digits (s : string) (acc : Z) : Z * string :=
  match s with
  | String c r =>
      match digit c with
      | Some d => read_digits r (10 * acc + d)%Z
      | None => (acc, s)
      end
  | EmptyString => (acc, s)
  end.

(** An integer literal: no leading zero before further digits. *)
Definition read_nat (s : string) : option (Z * string) :=
  match s with
  | String c r =>
      match digit c with
      | Some 0%Z =>
          match r with
          | String c' _ => match digit c' with Some _ => None | None => Some (0%Z, r) end
          | EmptyString => Some (0%Z, r)
          end
      | Some d => Some (read_digits r d)
      | None => None
      end
  | EmptyString => None
  end.

Fixpoint strip (prefix s : string) : option string :=
  match prefix, s with
  | EmptyString, _ => Some s
  | String a p, String b r => if Ascii.eqb a b then strip p r else None
  | _, _ => None
  end.

Definition head_is (n : nat) (s : string) : option string :=
  match s with
  | String c r => if (nat_of_ascii c =? n)%nat then Some r else None
  | EmptyString => None
  end.

Fixpoint read_value (fuel : nat) (s : string) : option (JsVal * string) :=
  match fuel with
  | O => None
  | S fuel' =>
      let s := skip_ws s in
      match head_is 34 s, head_is 91 s, head_is 123 s, head_is 45 s with
      | Some r, _, _, _ =>
          match read_chars r with
          | Some (t, rest) => Some (JStr t, rest)
          | None => None
          end
      | _, Some r, _, _ =>
          match head_is 93 (skip_ws r) with
          | Some rest => Some (JArr [], rest)
          | None =>
              match read_items fuel' r with
              | Some (items, rest) => Some (JArr items, rest)
              | None => None
              end
          end
      | _, _, Some r, _ =>
          match head_is 125 (skip_ws r) with
          | Some rest => Some (JObj [], rest)
          | None =>
              match read_members fuel' r [] with
              | Some (o, rest) => Some (JObj o, rest)
              | None => None
              end
          end
      | _, _, _, Some r =>
          match read_nat r with
          | Some (z, rest) => Some (JNum (- z), rest)
          | None => None
          end
      | None, None, None, None =>
          match strip "null" s, strip "true" s, strip "false" s with
          | Some rest, _, _ => Some (JNull, rest)
          | _, Some rest, _ => Some (JBool true, rest)
          | _, _, Some rest => Some (JBool false, rest)
          | None, None, None =>
              match read_nat s with
              | Some (z, rest) => Some (JNum z, rest)
              | None => None
              end
          end
      end
  end
with read_items (fuel : nat) (s : string) : option (list JsVal * string) :=
  match fuel with
  | O => None
  | S fuel' =>
      match read_value fuel' s with
      | Some (v, rest) =>
          let rest := skip_ws rest in
          match head_is 44 rest, head_is 93 rest with
          | Some r, _ =>
              match read_items fuel' r with
              | Some (vs, rest') => Some (v :: vs, rest')
              | None => None
              end
          | _, Some r => Some ([v], r)
          | None, None => None
          end
      | None => None
      end
  end
with read_members (fuel : nat) (s : string) (acc : Props) : option (Props * string) :=
  match fuel with
  | O => None
  | S fuel' =>
      match head_is 34 (skip_ws s) with
      | Some r =>
          match read_chars r with
          | Some (k, rest) =>
              match head_is 58 (skip_ws rest) with
              | Some r' =>
                  match read_value fuel' r' with
                  | Some (v, rest') =>
                      let acc := props_set acc k v in
                      let rest' := skip_ws rest' in
                      match head_is 44 rest', head_is 125 rest' with
                      | Some r'', _ => read_members fuel' r'' acc
                      | _, Some r'' => Some (acc, r'')
                      | None, None => None
                      end
                  | None => None
                  end
              | None => None
              end
          | None => None
          end
      | None => None
      end
  end.

(** The whole text must be one value, up to surrounding white space. *)
Definition parse (text : string) : option JsVal :=
  match read_value (S (String.length text)) text with
  | Some (v, rest) =>
      match skip_ws rest with
      | EmptyString => Some v
      | _ => None
      end
  | None => None
  end.

End JsonReader.

(** ** Concrete inputs

    The environment and payloads of the service's test suite
    (app.service.spec.ts) and of the scenarios of the specification. *)

Definition emptyWorld : World := mkWorld [] [] [].

Definition testEnv : Env := mkEnv (Some "http://test-upstream") (Some "OpenaiAPI").

Definition answering (d : JsVal) : UpstreamRequest -> AxiosResponse :=
  fun _ => mkResp 200 d.

Definition bearer : Headers := [("authorization", "Bearer test")].

Definition scenarioA : JsVal :=
  JObj [("Anthropic", JArr [JStr "claude-3-opus"; JStr "claude-3-sonnet"]);
        ("OpenaiAPI", JArr [JStr "gpt-4"; JStr "claude-3-opus"])].

Definition scenarioD : JsVal := JObj [("OpenaiAPI", JArr [JStr "gpt-4"])].

Definition otherEnv : Env :=
  mkEnv (Some "http://test-upstream") (Some "NonExistentProvider").

Definition scenarioE : Props :=
  [("A", JArr [JStr "m"]); ("B", JArr [JStr "m"; JStr "x"]); ("C", JArr [JStr "m"])].

Definition scenarioB : JsVal :=
  JObj [("OpenaiAPI", JArr [JStr "gpt-4"; JStr "gpt-3.5-turbo"])].

Definition scenarioC : JsVal :=
  JArr [JObj [("name", JStr "gpt-4"); ("providers", JArr [JStr "OpenaiAPI"])];
        JObj [("name", JStr "gpt-3.5-turbo"); ("providers", JArr [JStr "OpenaiAPI"])]].

(** Scenario C as the text [[{"name":"gpt-4","providers":["OpenaiAPI"]},...]]. *)
Definition scenarioC_text : string :=
  match JSON_stringify scenarioC with Some s => s | None => EmptyString end.

(** The [id]s of the entries of a returned model list. *)
Definition resultIds (r : Res JsVal) : option (list JsVal) :=
  match r with
  | Ret v => Some (map (fun e => field e "id") (array_items (field v "data")))
  | Throw _ => None
  end.

(** ** Further reference definitions *)

(** The strings among the items of an array, in order. *)
Definition item_names (items : list JsVal) : list string :=
  flat_map (fun it => match it with JStr s => [s] | _ => [] end) items.

(** The model names of a provider-keyed payload in the order the two
    nested loops of lines 79-88 visit them. *)
Definition mentioned_names (o : Props) : list string :=
  flat_map (fun e => item_names (array_items (snd e))) o.

(** The first occurrence of each string of [l] that is not in [seen]. *)
Fixpoint first_occurrences (seen l : list string) : list string :=
  match l with
  | [] => []
  | x :: l' =>
      if existsb (String.eqb x) seen then first_occurrences seen l'
      else x :: first_occurrences (seen ++ [x]) l'
  end.

(** Some provider whose lower-cased name is the lower-cased [key] lists
    the model [m]. *)
Definition listed_by (toLowerCase : string -> string) (o : Props)
    (key : string) (m : string) : Prop :=
  exists p v,
    In (p, v) o /\ toLowerCase p = toLowerCase key /\ In (JStr m) (array_items v).

(** What the service relies on in [toLowerCase] when the configured
    provider and a provider name differ in the case of ASCII letters
    only: it gives them the same string. *)
Definition respects_ascii_case (toLowerCase : string -> string) : Prop :=
  forall s t, eq_ignore_case s t = true -> toLowerCase s = toLowerCase t.

Definition add_logs (w : World) (lines : list LogLine) : World :=
  mkWorld (heap w) (logs w ++ lines) (sent w).

Definition is_warning (l : LogLine) : bool :=
  match level l with LWarn => true | _ => false end.

Definition is_error (l : LogLine) : bool :=
  match level l with LError => true | _ => false end.

(** The lines the normalisation stage writes. *)
Definition normalizeLog (JSON_parse : string -> option JsVal) (url : string)
    (d : JsVal) : list LogLine :=
  match classify d with
  | Sequence _ | ObjectWithModelsField _ | ObjectWithDataField _ => []
  | EncodedString text =>
      match JSON_parse text with
      | Some _ => []
      | None =>
          [mkLog LWarn
             ("Unable to parse string response from upstream " ++ url ++ ": "
                ++ sample d 500)]
      end
  | ProviderKeyedMap o =>
      [mkLog LDebug
         ("Transformed provider-keyed format: "
            ++ string_of_nat (List.length (buildModelMap d))
            ++ " unique models from "
            ++ string_of_nat (List.length (Object_keys d))
            ++ " providers")]
  | Unrecognized =>
      [mkLog LWarn
         ("Unexpected models response shape from upstream " ++ url ++ ": "
            ++ sample d 1000)]
  end.

(** The line lines 112-157 write: the message of a not-found failure. *)
Definition outcomeLog (r : Res JsVal) : list LogLine :=
  match r with
  | Throw (NotFoundException msg) => [mkLog LError msg]
  | _ => []
  end.

(** All the lines one call of [getModels] writes. *)
Definition getModelsLog (toLowerCase : string -> string)
    (JSON_parse : string -> option JsVal) (env : Env)
    (resp : AxiosResponse) : list LogLine :=
  (mkLog LDebug
     ("Fetched models from upstream " ++ modelsUrl env ++ " - status: "
        ++ string_of_Z (status resp) ++ ", dataType: " ++ typeof (data resp))
   :: normalizeLog JSON_parse (modelsUrl env) (data resp)
   ++ outcomeLog (expectedOutcome toLowerCase env (data resp)
                    (canonical JSON_parse (data resp))))%list.

(** The text [safeStringify] truncates: a string itself, the JSON text of
    another value. *)
Definition sourceText (v : JsVal) : option string :=
  match v with
  | JStr s => Some s
  | _ => JSON_stringify v
  end.

(** The request [postCompletions] builds for the body at [l]. *)
Definition completionsRequest (env : Env) (headers : Headers) (l : loc)
  : UpstreamRequest :=
  mkReq POST (interp (LLM_UPSTREAM env) ++ "/v1/chat/completions")
        ([("Accept", "application/json"); ("Content-Type", "application/json")]
           ++ auth_headers (header_get headers "authorization"))
        (Some l) RtStream.

(** The test of lines 69-71 on one value: an array whose items are all
    strings. *)
Definition stringArray (v : JsVal) : bool :=
  Array_isArray v
  && forallb (fun item => String.eqb (typeof item) "string") (array_items v).

(** * Properties *)

(** ** Running the monad *)

Lemma bind_ret {A B} (m : M A) (k : A -> M B) (a : A) (w w' : World) :
  m w = (Ret a, w') -> bind m k w = k a w'.
Proof. intros H. unfold bind. now rewrite H. Qed.

Lemma bind_throw {A B} (m : M A) (k : A -> M B) (e : Exn) (w w' : World) :
  m w = (Throw e, w') -> bind m k w = (Throw e, w').
Proof. intros H. unfold bind. now rewrite H. Qed.

(** [step H] runs the first command of a sequence, [H] being the equation
    that says what it returns. *)
Ltac step H :=
  first [ rewrite (bind_ret _ _ _ _ _ H) | rewrite (bind_throw _ _ _ _ _ H) ].

(** ** Strings *)

Lemma length_append (s t : string) :
  String.length (s ++ t) = String.length s + String.length t.
Proof. induction s as [|c s IH]; simpl; [reflexivity | now rewrite IH]. Qed.

Lemma length_substring_le (n : nat) (s : string) :
  String.length (substring 0 n s) <= n.
Proof.
  revert s. induction n as [|n IH]; intros [|c s]; simpl; try lia.
  specialize (IH s). lia.
Qed.

Lemma truncate_bound (max : nat) (s : string) :
  String.length (truncate max s) <= max + String.length truncated_suffix.
Proof.
  unfold truncate. destruct (max <? String.length s)%nat eqn:E.
  - rewrite length_append. pose proof (length_substring_le max s). lia.
  - apply Nat.ltb_ge in E. lia.
Qed.

Lemma JSON_stringify_undefined (v : JsVal) :
  JSON_stringify v = None -> v = JUndefined.
Proof. destruct v as [| |[|]| | | |]; simpl; congruence. Qed.

Lemma sample_bound (v : JsVal) (max : nat) :
  String.length (sample v max) <= max + 15.
Proof.
  change 15 with (String.length truncated_suffix).
  unfold sample. destruct v; try apply truncate_bound;
    destruct (JSON_stringify _) eqn:E; try apply truncate_bound;
    apply JSON_stringify_undefined in E; try discriminate.
  simpl. lia.
Qed.

(** [safeStringify] always returns, leaves the state alone, and its result
    is [sample]. *)
Lemma safeStringify_returns (v : JsVal) (max : nat) (w : World) :
  safeStringify v max w = (Ret (sample v max), w).
Proof.
  unfold safeStringify, sample, truncate, try_catch, bind, string_or_throw.
  destruct v as [| |[|]| | | |]; reflexivity.
Qed.

(** ** Normalisation *)

Lemma has_array_field_eval (d : JsVal) (k : string) (w : World) :
  has_array_field d k w = (Ret (Array_isArray (field d k)), w).
Proof.
  unfold has_array_field, getProp, bind, ret.
  destruct d as [| |b|z|s| |]; simpl; try reflexivity.
  - now destruct b.
  - now destruct (Z.eqb z 0).
  - now destruct (String.eqb s EmptyString).
Qed.

Lemma getProp_array_field (d : JsVal) (k : string) (w : World) :
  Array_isArray (field d k) = true ->
  getProp d k w = (Ret (field d k), w).
Proof. destruct d; simpl; try discriminate. reflexivity. Qed.

Lemma same_effects_refl (w : World) : same_effects w w.
Proof. now split. Qed.

Lemma unexpectedShape_eval (url : string) (d : JsVal) (w : World) :
  exists w', unexpectedShape url d w = (Ret [], w') /\ same_effects w w'.
Proof.
  unfold unexpectedShape.
  step (safeStringify_returns d 1000 w).
  unfold bind, logger, ret; simpl. eexists; split; [reflexivity | now split].
Qed.

Lemma rules_1_to_3_eval (parsed : JsVal) (w : World) :
  (if Array_isArray parsed then ret (array_items parsed)
   else
     pModels <- has_array_field parsed "models" ;;
     if pModels then (m <- getProp parsed "models" ;; ret (array_items m))
     else
       pData <- has_array_field parsed "data" ;;
       if pData then (m <- getProp parsed "data" ;; ret (array_items m))
       else ret []) w
  = (Ret (rules_1_to_3 parsed), w).
Proof.
  destruct (Array_isArray parsed) eqn:EA.
  - destruct parsed; try discriminate. reflexivity.
  - step (has_array_field_eval parsed "models" w).
    destruct (Array_isArray (field parsed "models")) eqn:EM.
    + step (getProp_array_field _ _ w EM).
      destruct parsed; try discriminate. cbn [field] in *.
      unfold rules_1_to_3, classify.
      destruct (props_get props "models"); try discriminate. reflexivity.
    + step (has_array_field_eval parsed "data" w).
      destruct (Array_isArray (field parsed "data")) eqn:ED.
      * step (getProp_array_field _ _ w ED).
        destruct parsed; try discriminate. cbn [field] in *.
        unfold rules_1_to_3, classify.
        destruct (props_get props "models"); try discriminate;
          destruct (props_get props "data"); try discriminate; reflexivity.
      * destruct parsed; try discriminate; try reflexivity.
        cbn [field] in *. unfold rules_1_to_3, classify.
        destruct (props_get props "models"); try discriminate;
          destruct (props_get props "data"); try discriminate;
          destruct (isProviderKeyedFormat _); reflexivity.
Qed.

(** The normalisation stage returns the list [canonical] describes, for
    every payload. *)
Lemma normalizeModels_eval (JSON_parse : string -> option JsVal)
    (url : string) (d : JsVal) (w : World) :
  exists w',
    normalizeModels JSON_parse url d w = (Ret (canonical JSON_parse d), w')
    /\ same_effects w w'.
Proof.
  unfold normalizeModels.
  destruct (Array_isArray d) eqn:EA.
  { destruct d; try discriminate. exists w. split; [reflexivity | apply same_effects_refl]. }
  step (has_array_field_eval d "models" w).
  destruct (Array_isArray (field d "models")) eqn:EM.
  { step (getProp_array_field _ _ w EM).
    destruct d; try discriminate. cbn [field] in *.
    exists w. split; [| apply same_effects_refl].
    unfold canonical, classify.
    destruct (props_get props "models"); try discriminate. reflexivity. }
  step (has_array_field_eval d "data" w).
  destruct (Array_isArray (field d "data")) eqn:ED.
  { step (getProp_array_field _ _ w ED).
    destruct d; try discriminate. cbn [field] in *.
    exists w. split; [| apply same_effects_refl].
    unfold canonical, classify.
    destruct (props_get props "models"); try discriminate;
      destruct (props_get props "data"); try discriminate; reflexivity. }
  destruct d as [| |b|z|s|items|o]; try discriminate.
  - exact (unexpectedShape_eval url JUndefined w).
  - exact (unexpectedShape_eval url JNull w).
  - destruct b; exact (unexpectedShape_eval url (JBool _) w).
  - cbn [truthy typeof]. destruct (Z.eqb z 0);
      exact (unexpectedShape_eval url (JNum z) w).
  - (* a string *)
    change (String.eqb (typeof (JStr s)) "string") with true. cbv iota.
    unfold canonical, classify, try_catch.
    unfold bind at 1. unfold ToString. cbn [js_String]. unfold ret at 1.
    unfold JSON_parse_M.
    destruct (JSON_parse s) as [parsed|] eqn:EP.
    + unfold bind at 1, ret at 1.
      rewrite rules_1_to_3_eval.
      exists w. split; [reflexivity | apply same_effects_refl].
    + unfold bind at 1, throw.
      step (safeStringify_returns (JStr s) 500 w).
      unfold bind, logger, ret; simpl.
      eexists; split; [reflexivity | now split].
  - (* an object without an array-valued models or data field *)
    cbn [field] in *.
    change (String.eqb (typeof (JObj o)) "string") with false.
    change (truthy (JObj o) && String.eqb (typeof (JObj o)) "object") with true.
    cbv iota. unfold canonical, classify.
    destruct (props_get o "models"); try discriminate;
      destruct (props_get o "data"); try discriminate;
      (destruct (isProviderKeyedFormat (JObj o));
       [ unfold bind, logger, ret; simpl; eexists; split; [reflexivity | now split]
       | apply unexpectedShape_eval ]).
Qed.

(** ** The model map *)

Lemma Map_get_set (m : ModelMap) (k k' : string) (v : list string) :
  Map_get (Map_set m k v) k' = if String.eqb k k' then Some v else Map_get m k'.
Proof.
  induction m as [|[k0 v0] m IH]; simpl.
  - now destruct (String.eqb_spec k k').
  - destruct (String.eqb_spec k0 k) as [->|Hk]; simpl.
    + now destruct (String.eqb_spec k k').
    + rewrite IH. destruct (String.eqb_spec k0 k') as [->|Hk'];
        destruct (String.eqb_spec k k'); congruence.
Qed.

Lemma Map_get_None (m : ModelMap) (k : string) :
  Map_get m k = None <-> ~ In k (map fst m).
Proof.
  induction m as [|[k0 v0] m IH]; simpl.
  - tauto.
  - destruct (String.eqb_spec k0 k) as [->|Hk].
    + split; [discriminate | intros H; exfalso; apply H; now left].
    + rewrite IH. tauto.
Qed.

Lemma Map_set_keys (m : ModelMap) (k : string) (v : list string) :
  map fst (Map_set m k v) =
  match Map_get m k with
  | Some _ => map fst m
  | None => (map fst m ++ [k])%list
  end.
Proof.
  induction m as [|[k0 v0] m IH]; simpl; [reflexivity|].
  destruct (String.eqb_spec k0 k) as [->|Hk]; simpl; [reflexivity|].
  rewrite IH. now destruct (Map_get m k).
Qed.

Lemma Map_set_NoDup (m : ModelMap) (k : string) (v : list string) :
  NoDup (map fst m) -> NoDup (map fst (Map_set m k v)).
Proof.
  intros H. rewrite Map_set_keys. destruct (Map_get m k) eqn:E; [assumption|].
  apply Map_get_None in E.
  apply NoDup_rev in H. rewrite <- (rev_involutive (_ ++ _)).
  apply NoDup_rev. rewrite rev_app_distr. simpl. constructor; [|assumption].
  now rewrite <- in_rev.
Qed.

Lemma extend_extend (a : option (list string)) (e1 e2 : list string) :
  extend (extend a e1) e2 = extend a (e1 ++ e2)%list.
Proof.
  destruct a as [l|]; simpl.
  - now rewrite app_assoc.
  - destruct e1; simpl; reflexivity.
Qed.

Lemma addProvider_fold (acc : ModelMap) (p : string) (v : JsVal) :
  addProvider acc (p, v) = fold_left (addModel p) (array_items v) acc.
Proof. unfold addProvider. destruct v; reflexivity. Qed.

Lemma addModel_get (p : string) (acc : ModelMap) (x : JsVal) (m : string) :
  Map_get (addModel p acc x) m =
  extend (Map_get acc m)
         (repeat p (occurrences m (JArr [x]))).
Proof.
  unfold occurrences. destruct x as [| | | |s| |]; simpl;
    try (destruct (Map_get acc m); simpl; now rewrite ?app_nil_r).
  rewrite Map_get_set.
  destruct (String.eqb_spec s m) as [->|Hs]; simpl.
  - now destruct (Map_get acc m).
  - destruct (Map_get acc m); simpl; now rewrite ?app_nil_r.
Qed.

Lemma occurrences_cons (m : string) (x : JsVal) (items : list JsVal) :
  occurrences m (JArr (x :: items)) =
  occurrences m (JArr [x]) + occurrences m (JArr items).
Proof.
  unfold occurrences. simpl.
  destruct (match x with JStr s => String.eqb s m | _ => false end); reflexivity.
Qed.

Lemma inner_loop_get (p : string) (items : list JsVal) (acc : ModelMap) (m : string) :
  Map_get (fold_left (addModel p) items acc) m =
  extend (Map_get acc m) (repeat p (occurrences m (JArr items))).
Proof.
  revert acc. induction items as [|x items IH]; intros acc; simpl.
  - destruct (Map_get acc m); simpl; now rewrite ?app_nil_r.
  - rewrite IH, addModel_get, extend_extend, (occurrences_cons m x items), repeat_app.
    reflexivity.
Qed.

Lemma occurrences_items (m : string) (v : JsVal) :
  occurrences m v = occurrences m (JArr (array_items v)).
Proof. reflexivity. Qed.

Lemma outer_loop_get (o : Props) (acc : ModelMap) (m : string) :
  Map_get (fold_left addProvider o acc) m =
  extend (Map_get acc m) (repeated_providers o m).
Proof.
  revert acc. induction o as [|[p v] o IH]; intros acc.
  - simpl. destruct (Map_get acc m); simpl; now rewrite ?app_nil_r.
  - change (fold_left addProvider ((p, v) :: o) acc)
      with (fold_left addProvider o (addProvider acc (p, v))).
    change (repeated_providers ((p, v) :: o) m)
      with (repeat p (occurrences m v) ++ repeated_providers o m)%list.
    rewrite IH, addProvider_fold, inner_loop_get, extend_extend.
    now rewrite <- occurrences_items.
Qed.

Lemma addModel_NoDup (p : string) (acc : ModelMap) (x : JsVal) :
  NoDup (map fst acc) -> NoDup (map fst (addModel p acc x)).
Proof. destruct x; simpl; auto using Map_set_NoDup. Qed.

Lemma inner_loop_NoDup (p : string) (items : list JsVal) (acc : ModelMap) :
  NoDup (map fst acc) -> NoDup (map fst (fold_left (addModel p) items acc)).
Proof.
  revert acc. induction items as [|x items IH]; intros acc H; simpl;
    auto using addModel_NoDup.
Qed.

Lemma outer_loop_NoDup (o : Props) (acc : ModelMap) :
  NoDup (map fst acc) -> NoDup (map fst (fold_left addProvider o acc)).
Proof.
  revert acc. induction o as [|[p v] o IH]; intros acc H; [assumption|].
  change (fold_left addProvider ((p, v) :: o) acc)
    with (fold_left addProvider o (addProvider acc (p, v))).
  apply IH. rewrite addProvider_fold. now apply inner_loop_NoDup.
Qed.

Lemma buildModelMap_NoDup (o : Props) :
  NoDup (map fst (buildModelMap (JObj o))).
Proof. apply outer_loop_NoDup. constructor. Qed.

Lemma buildModelMap_get (o : Props) (m : string) :
  Map_get (buildModelMap (JObj o)) m = extend None (repeated_providers o m).
Proof. unfold buildModelMap. simpl Object_entries. now rewrite outer_loop_get. Qed.

Lemma occurrences_pos (m : string) (v : JsVal) :
  0 < occurrences m v <-> In (JStr m) (array_items v).
Proof.
  unfold occurrences. induction (array_items v) as [|x l IH]; simpl.
  - split; [lia | tauto].
  - destruct x as [| | | |s| |]; try (rewrite IH; intuition congruence).
    destruct (String.eqb_spec s m) as [->|Hs]; simpl.
    + split; [now left | lia].
    + rewrite IH. intuition congruence.
Qed.

Lemma repeated_providers_mentions (o : Props) (m : string) :
  repeated_providers o m <> [] <-> mentions o m.
Proof.
  unfold repeated_providers, mentions. induction o as [|[p v] o IH]; simpl.
  - split; [congruence | intros (p & v & [] & _)].
  - destruct (occurrences m v) as [|n] eqn:E; simpl.
    + rewrite IH. split.
      * intros (p' & v' & Hin & Hm). exists p', v'. split; [now right | assumption].
      * intros (p' & v' & [Eq|Hin] & Hm).
        -- inversion Eq; subst. apply occurrences_pos in Hm. lia.
        -- now exists p', v'.
    + split; [intros _ | discriminate].
      exists p, v. split; [now left|]. apply occurrences_pos. lia.
Qed.

Lemma buildModelMap_keys (o : Props) (m : string) :
  In m (map fst (buildModelMap (JObj o))) <-> mentions o m.
Proof.
  rewrite <- repeated_providers_mentions.
  pose proof (Map_get_None (buildModelMap (JObj o)) m) as HN.
  rewrite buildModelMap_get in HN. simpl in HN.
  destruct (repeated_providers o m) eqn:R.
  - split; [intros H; exfalso; now apply HN | congruence].
  - split; [discriminate | intros _].
    destruct (in_dec string_dec m (map fst (buildModelMap (JObj o)))) as [Hin|Hn];
      [assumption|].
    apply HN in Hn. discriminate.
Qed.

Lemma Map_get_In (mm : ModelMap) (k : string) (v : list string) :
  NoDup (map fst mm) -> In (k, v) mm -> Map_get mm k = Some v.
Proof.
  induction mm as [|[k0 v0] mm IH]; simpl; [tauto|].
  intros Hnd [E|Hin].
  - inversion E; subst. now rewrite String.eqb_refl.
  - inversion Hnd as [|? ? Hn Hnd']; subst.
    destruct (String.eqb_spec k0 k) as [->|Hk]; [|now apply IH].
    exfalso. apply Hn. apply (in_map fst) in Hin. exact Hin.
Qed.

Lemma names_model_occurrences (m : string) (v : JsVal) :
  names_model m v = true <-> 0 < occurrences m v.
Proof.
  unfold names_model, occurrences.
  induction (array_items v) as [|x l IH]; simpl; [split; [discriminate | lia]|].
  destruct (match x with JStr s => String.eqb s m | _ => false end); simpl.
  - split; [lia | reflexivity].
  - exact IH.
Qed.

Lemma repeated_is_spec_providers (o : Props) (m : string) :
  (forall p v, In (p, v) o -> occurrences m v <= 1) ->
  repeated_providers o m = spec_providers o m.
Proof.
  unfold repeated_providers, spec_providers.
  induction o as [|[p v] o IH]; intros H; simpl; [reflexivity|].
  rewrite IH by (intros p' v' Hin; apply (H p' v'); now right).
  pose proof (H p v (or_introl eq_refl)) as Hle.
  pose proof (names_model_occurrences m v) as Hn.
  destruct (names_model m v) eqn:E.
  - assert (occurrences m v = 1) as -> by (destruct Hn as [Hn _]; specialize (Hn eq_refl); lia).
    reflexivity.
  - assert (occurrences m v = 0) as ->.
    { destruct (occurrences m v); [reflexivity|].
      destruct Hn as [_ Hn]. discriminate Hn. lia. }
    reflexivity.
Qed.

Lemma canonical_provider_keyed (JSON_parse : string -> option JsVal) (o : Props) :
  isProviderKeyedFormat (JObj o) = true ->
  Array_isArray (props_get o "models") = false ->
  Array_isArray (props_get o "data") = false ->
  canonical JSON_parse (JObj o) = map modelObject (buildModelMap (JObj o)).
Proof.
  intros HP HM HD. unfold canonical, classify. rewrite HP.
  destruct (props_get o "models"); try discriminate;
    destruct (props_get o "data"); try discriminate; reflexivity.
Qed.

(** ** Permuting the keys of a payload *)

Lemma props_get_In (o : Props) (k : string) (v : JsVal) :
  NoDup (map fst o) -> In (k, v) o -> props_get o k = v.
Proof.
  induction o as [|[k0 v0] o IH]; simpl; [tauto|].
  intros Hnd [E|Hin].
  - inversion E; subst. now rewrite String.eqb_refl.
  - inversion Hnd as [|? ? Hn Hnd']; subst.
    destruct (String.eqb_spec k0 k) as [->|Hk]; [|now apply IH].
    exfalso. apply Hn. apply (in_map fst) in Hin. exact Hin.
Qed.

Lemma props_get_absent (o : Props) (k : string) :
  ~ In k (map fst o) -> props_get o k = JUndefined.
Proof.
  induction o as [|[k0 v0] o IH]; simpl; [reflexivity|].
  intros H. destruct (String.eqb_spec k0 k) as [->|Hk]; [tauto|].
  apply IH. tauto.
Qed.

Lemma props_get_Permutation (o1 o2 : Props) (k : string) :
  NoDup (map fst o1) -> Permutation o1 o2 -> props_get o1 k = props_get o2 k.
Proof.
  intros Hnd HP.
  assert (Hnd2 : NoDup (map fst o2))
    by (eapply Permutation_NoDup; [apply Permutation_map; exact HP | exact Hnd]).
  destruct (in_dec string_dec k (map fst o1)) as [Hin|Hn].
  - apply in_map_iff in Hin. destruct Hin as ([k' v] & E & Hin). simpl in E. subst k'.
    rewrite (props_get_In o1 k v Hnd Hin).
    symmetry. apply props_get_In; [assumption|].
    eapply Permutation_in; eassumption.
  - rewrite (props_get_absent o1 k Hn). symmetry. apply props_get_absent.
    intros H. apply Hn. eapply Permutation_in; [|exact H].
    apply Permutation_map, Permutation_sym, HP.
Qed.

Lemma forallb_Permutation {A} (f : A -> bool) (l1 l2 : list A) :
  Permutation l1 l2 -> forallb f l1 = forallb f l2.
Proof.
  induction 1; simpl; try congruence.
  now destruct (f x), (f y).
Qed.

Lemma isProviderKeyedFormat_Permutation (o1 o2 : Props) :
  Permutation o1 o2 ->
  isProviderKeyedFormat (JObj o1) = isProviderKeyedFormat (JObj o2).
Proof.
  intros HP. unfold isProviderKeyedFormat, Object_values. simpl.
  apply forallb_Permutation, Permutation_map, HP.
Qed.

Lemma mentions_Permutation (o1 o2 : Props) (m : string) :
  Permutation o1 o2 -> mentions o1 m -> mentions o2 m.
Proof.
  intros HP (p & v & Hin & Hm). exists p, v. split; [|assumption].
  eapply Permutation_in; eassumption.
Qed.

Lemma recordNames_modelObject (mm : ModelMap) :
  recordNames (map modelObject mm) = map JStr (map fst mm).
Proof.
  unfold recordNames. rewrite !map_map. apply map_ext. intros [k v]. reflexivity.
Qed.

Lemma buildModelMap_Permutation (o1 o2 : Props) :
  Permutation o1 o2 ->
  Permutation (map fst (buildModelMap (JObj o1))) (map fst (buildModelMap (JObj o2))).
Proof.
  intros HP. apply NoDup_Permutation; try apply buildModelMap_NoDup.
  intros m. rewrite !buildModelMap_keys.
  split; apply mentions_Permutation; [assumption | now apply Permutation_sym].
Qed.

(** ** The filter and the rendering *)

Lemma recordProviders_eval (r : JsVal) (w : World) :
  nullish r = false -> recordProviders r w = (Ret (providersOf r), w).
Proof.
  intros Hn. unfold recordProviders, providersOf, getProp, bind, ret.
  destruct r as [| |b|z|s|items|o]; try discriminate; try reflexivity.
  cbn [field]. destruct (props_get o "providers") as [| |b|z|s|items|o']; try reflexivity.
  - now destruct b.
  - cbn [Array_isArray truthy typeof]. now destruct (Z.eqb z 0).
  - cbn [Array_isArray truthy typeof]. now destruct (String.eqb s EmptyString).
Qed.

Lemma recordProviders_nullish (r : JsVal) (w : World) :
  nullish r = true -> recordProviders r w = (Throw TypeError, w).
Proof. destruct r; try discriminate; reflexivity. Qed.

Lemma Array_some_eval (toLowerCase : string -> string) (key : string)
    (ps : list JsVal) (w : World) :
  Array_some
    (fun provider =>
       s <- ToString provider ;;
       ret (String.eqb (toLowerCase s) key))
    ps w
  = match someProvider toLowerCase key ps with
    | Some b => (Ret b, w)
    | None => (Throw TypeError, w)
    end.
Proof.
  induction ps as [|p ps IH]; [reflexivity|].
  cbn [Array_some someProvider]. unfold bind at 1. unfold bind at 1.
  unfold ToString, providerIs.
  destruct (js_String p) as [t|]; [|reflexivity].
  unfold ret at 1. unfold ret at 1.
  destruct (String.eqb (toLowerCase t) key); [reflexivity | exact IH].
Qed.

Lemma matchesProvider_eval (toLowerCase : string -> string) (key : string)
    (r : JsVal) (w : World) :
  matchesProvider toLowerCase key r w =
  match matchesKey toLowerCase key r with
  | Some b => (Ret b, w)
  | None => (Throw TypeError, w)
  end.
Proof.
  unfold matchesProvider, matchesKey. destruct (nullish r) eqn:E.
  - now step (recordProviders_nullish r w E).
  - step (recordProviders_eval r w E). apply Array_some_eval.
Qed.

Lemma Array_filter_eval (toLowerCase : string -> string) (key : string)
    (l : list JsVal) (w : World) :
  Array_filter (matchesProvider toLowerCase key) l w =
  match filterOutcome toLowerCase key l with
  | Some kept => (Ret kept, w)
  | None => (Throw TypeError, w)
  end.
Proof.
  induction l as [|r l IH]; [reflexivity|].
  cbn [Array_filter filterOutcome]. unfold bind at 1.
  rewrite matchesProvider_eval.
  destruct (matchesKey toLowerCase key r) as [b|]; [|reflexivity].
  unfold bind at 1. rewrite IH.
  destruct (filterOutcome toLowerCase key l); reflexivity.
Qed.

Lemma renderModel_eval (r : JsVal) (w : World) :
  nullish r = false -> renderModel r w = (Ret (rendered r), w).
Proof. destruct r; try discriminate; reflexivity. Qed.

Lemma Array_map_eval (l : list JsVal) (w : World) :
  existsb nullish l = false ->
  Array_map renderModel l w = (Ret (map rendered l), w).
Proof.
  induction l as [|r l IH]; [reflexivity|].
  cbn [existsb]. intros H. apply orb_false_iff in H. destruct H as [Hr Hl].
  cbn [Array_map map]. step (renderModel_eval r w Hr).
  step (IH Hl). reflexivity.
Qed.

Lemma matchesKey_not_nullish (toLowerCase : string -> string) (key : string)
    (r : JsVal) (b : bool) :
  matchesKey toLowerCase key r = Some b -> nullish r = false.
Proof. unfold matchesKey. destruct (nullish r); [discriminate | reflexivity]. Qed.

(** The records the filter keeps, when it returns: those on which the
    callback gives [true], in their order; none of them is [null] or
    [undefined]. *)
Lemma filterOutcome_kept (toLowerCase : string -> string) (key : string)
    (l kept : list JsVal) :
  filterOutcome toLowerCase key l = Some kept ->
  existsb nullish l = false
  /\ (forall r, In r l -> exists b, matchesKey toLowerCase key r = Some b)
  /\ kept = filter (fun r => match matchesKey toLowerCase key r with
                             | Some true => true
                             | _ => false
                             end) l.
Proof.
  revert kept. induction l as [|r l IH]; intros kept; cbn [filterOutcome].
  - intros H. inversion H. repeat split. intros r [].
  - destruct (matchesKey toLowerCase key r) as [b|] eqn:Er; [|discriminate].
    destruct (filterOutcome toLowerCase key l) as [k|]; [|discriminate].
    intros H. inversion H; subst kept.
    destruct (IH k eq_refl) as (Hn & Hall & Hk).
    split; [|split].
    + cbn [existsb]. now rewrite (matchesKey_not_nullish _ _ _ _ Er), Hn.
    + intros r' [<-|Hin]; [now exists b | now apply Hall].
    + cbn [filter]. rewrite Er. destruct b; now rewrite <- Hk.
Qed.

Lemma existsb_nullish_filter (f : JsVal -> bool) (l : list JsVal) :
  existsb nullish l = false -> existsb nullish (filter f l) = false.
Proof.
  induction l as [|r l IH]; [reflexivity|].
  cbn [existsb filter]. intros H. apply orb_false_iff in H. destruct H as [Hr Hl].
  destruct (f r); cbn [existsb]; rewrite ?Hr; auto.
Qed.

Lemma filterOutcome_kept_not_nullish (toLowerCase : string -> string)
    (key : string) (l kept : list JsVal) :
  filterOutcome toLowerCase key l = Some kept -> existsb nullish kept = false.
Proof.
  intros H. destruct (filterOutcome_kept _ _ _ _ H) as (Hn & _ & ->).
  now apply existsb_nullish_filter.
Qed.

(** Lines 112-157 compute [expectedOutcome]; they log, and neither touch
    the heap nor send anything. *)
Lemma filterAndRender_eval (toLowerCase : string -> string) (env : Env)
    (d : JsVal) (models : list JsVal) (w : World) :
  exists w',
    filterAndRender toLowerCase env d models w
    = (expectedOutcome toLowerCase env d models, w')
    /\ same_effects w w'.
Proof.
  unfold filterAndRender, expectedOutcome.
  destruct models as [|r0 rest]; cbn [List.length Nat.eqb].
  { unfold bind at 1. unfold bind at 1.
    rewrite safeStringify_returns. unfold bind, logger, throw. cbn.
    eexists; split; [reflexivity | now split]. }
  set (models := r0 :: rest).
  unfold bind at 1. unfold ret at 1. unfold bind at 1.
  rewrite Array_filter_eval.
  destruct (filterOutcome toLowerCase (providerKey toLowerCase env) models)
    as [kept|] eqn:EF.
  2:{ exists w; split; [reflexivity | apply same_effects_refl]. }
  pose proof (filterOutcome_kept_not_nullish _ _ _ _ EF) as EK.
  destruct kept as [|k0 kept]; cbn [List.length Nat.eqb].
  { unfold bind at 1. unfold bind at 1.
    rewrite safeStringify_returns. unfold bind, logger, throw. cbn.
    eexists; split; [reflexivity | now split]. }
  unfold bind at 1. unfold ret at 1.
  step (Array_map_eval (k0 :: kept) w EK).
  exists w; split; [reflexivity | apply same_effects_refl].
Qed.

(** [getModels] sends one request, and its outcome is [expectedOutcome] on
    the answer's payload and the canonical list of that payload. *)
Lemma getModels_eval (toLowerCase : string -> string)
    (JSON_parse : string -> option JsVal)
    (upstream_answer : UpstreamRequest -> AxiosResponse) (env : Env)
    (headers : Headers) (w : World) :
  let d := data (upstream_answer (modelsRequest env headers)) in
  exists w',
    getModels toLowerCase JSON_parse upstream_answer env headers w
    = (expectedOutcome toLowerCase env d (canonical JSON_parse d), w')
    /\ heap w' = heap w
    /\ sent w' = (sent w ++ [modelsRequest env headers])%list.
Proof.
  intros d. unfold getModels.
  unfold bind at 1. unfold http_get. fold (modelsRequest env headers).
  unfold bind at 1. unfold logger at 1.
  set (w1 := mkWorld _ _ _).
  destruct (normalizeModels_eval JSON_parse (modelsUrl env) d w1) as (w2 & E2 & H2 & S2).
  unfold bind at 1. fold d. rewrite E2.
  destruct (filterAndRender_eval toLowerCase env d (canonical JSON_parse d) w2)
    as (w3 & E3 & H3 & S3).
  exists w3. split; [exact E3|]. split; [now rewrite H3, H2 | now rewrite S3, S2].
Qed.

(** ** Case-insensitive comparison *)

Lemma nat_of_lower_ascii (c : ascii) :
  nat_of_ascii (lower_ascii c) =
  if is_upper (nat_of_ascii c) then nat_of_ascii c + 32 else nat_of_ascii c.
Proof.
  unfold lower_ascii, is_upper.
  destruct ((65 <=? nat_of_ascii c)%nat && (nat_of_ascii c <=? 90)%nat) eqn:E;
    [|reflexivity].
  apply andb_true_iff in E. destruct E as [_ E]. apply Nat.leb_le in E.
  apply nat_ascii_embedding. lia.
Qed.

Lemma nat_of_ascii_inj (a b : ascii) : nat_of_ascii a = nat_of_ascii b -> a = b.
Proof.
  intros H. rewrite <- (ascii_nat_embedding a), <- (ascii_nat_embedding b).
  now rewrite H.
Qed.

Lemma lower_ascii_same_letter (a b : ascii) :
  lower_ascii a = lower_ascii b <-> same_letter a b = true.
Proof.
  split.
  - intros H. apply (f_equal nat_of_ascii) in H.
    rewrite !nat_of_lower_ascii in H. unfold same_letter, is_upper in *.
    destruct (Nat.leb_spec 65 (nat_of_ascii a)), (Nat.leb_spec (nat_of_ascii a) 90),
      (Nat.leb_spec 65 (nat_of_ascii b)), (Nat.leb_spec (nat_of_ascii b) 90);
      cbn [andb] in *;
      repeat (apply orb_true_iff; first
                [ left; apply Nat.eqb_eq; lia
                | right; apply Nat.eqb_eq; lia
                | left ]).
  - intros H. apply nat_of_ascii_inj. rewrite !nat_of_lower_ascii.
    unfold same_letter, is_upper in *.
    destruct (Nat.leb_spec 65 (nat_of_ascii a)), (Nat.leb_spec (nat_of_ascii a) 90),
      (Nat.leb_spec 65 (nat_of_ascii b)), (Nat.leb_spec (nat_of_ascii b) 90);
      cbn [andb orb] in *;
      rewrite ?orb_false_r in H;
      repeat match goal with
             | H : (_ || _) = true |- _ => apply orb_true_iff in H; destruct H
             | H : (_ =? _)%nat = true |- _ => apply Nat.eqb_eq in H
             end; try lia; try discriminate.
Qed.

Lemma asciiLower_eq_ignore_case (s t : string) :
  asciiLower s = asciiLower t <-> eq_ignore_case s t = true.
Proof.
  revert t. induction s as [|a s IH]; intros [|b t]; simpl;
    try (split; [discriminate | discriminate]); [tauto|].
  rewrite andb_true_iff, <- IH, <- lower_ascii_same_letter.
  split; [intros H; inversion H; auto | intros [-> ->]; reflexivity].
Qed.

Lemma asciiLower_respects_ascii_case : respects_ascii_case asciiLower.
Proof. intros s t H. now apply asciiLower_eq_ignore_case. Qed.

(** When the callback returns on a list of providers, it returns [true]
    exactly when one of them, converted and lower-cased, is the key. *)
Lemma someProvider_spec (toLowerCase : string -> string) (key : string)
    (ps : list JsVal) (b : bool) :
  someProvider toLowerCase key ps = Some b ->
  (b = true <->
   exists p t, In p ps /\ js_String p = Some t /\ toLowerCase t = key).
Proof.
  revert b. induction ps as [|p ps IH]; intros b; cbn [someProvider].
  - intros H. inversion H. split; [discriminate | intros (p & t & [] & _)].
  - unfold providerIs. destruct (js_String p) as [t|] eqn:Ep; [|discriminate].
    destruct (String.eqb_spec (toLowerCase t) key) as [Ek|Ek].
    + intros H. inversion H. split; [intros _ | reflexivity].
      exists p, t. split; [now left | now split].
    + intros H. rewrite (IH b H). split.
      * intros (q & u & Hin & Hq & Hu). exists q, u. split; [now right | now split].
      * intros (q & u & [<-|Hin] & Hq & Hu).
        -- rewrite Ep in Hq. inversion Hq; subst. contradiction.
        -- now exists q, u.
Qed.

(** The callback returns on a list all of whose items convert. *)
Lemma someProvider_total (toLowerCase : string -> string) (key : string)
    (ps : list JsVal) :
  (forall p, In p ps -> js_String p <> None) ->
  exists b, someProvider toLowerCase key ps = Some b.
Proof.
  induction ps as [|p ps IH]; intros H; cbn [someProvider]; [eauto|].
  unfold providerIs. destruct (js_String p) as [t|] eqn:Ep.
  - destruct (String.eqb (toLowerCase t) key); [eauto|].
    apply IH. intros q Hq. apply H. now right.
  - exfalso. apply (H p); [now left | exact Ep].
Qed.

(** ** The provider-keyed inversion *)

(** C1, as amended.  For a payload that reaches the provider-keyed rule
    (every value an array of strings, no array-valued [models] or [data]
    field), the normaliser returns one record per model name the payload
    mentions, each name once; the record's providers are the providers
    whose list names the model, in the order of the payload's keys, each
    as many times as its list names the model.  When no list names the
    model twice, that is exactly the providers naming it, in key order. *)
Theorem provider_keyed_inversion
    (JSON_parse : string -> option JsVal) (url : string) (o : Props) (w : World) :
  isProviderKeyedFormat (JObj o) = true ->
  Array_isArray (props_get o "models") = false ->
  Array_isArray (props_get o "data") = false ->
  exists (mm : ModelMap) (w' : World),
    normalizeModels JSON_parse url (JObj o) w = (Ret (map modelObject mm), w')
    /\ NoDup (map fst mm)
    /\ (forall m, In m (map fst mm) <-> mentions o m)
    /\ (forall m ps, In (m, ps) mm -> ps = repeated_providers o m)
    /\ (forall m, (forall p v, In (p, v) o -> occurrences m v <= 1) ->
                  repeated_providers o m = spec_providers o m).
Proof.
  intros HP HM HD.
  destruct (normalizeModels_eval JSON_parse url (JObj o) w) as (w' & E & _).
  rewrite (canonical_provider_keyed JSON_parse o HP HM HD) in E.
  exists (buildModelMap (JObj o)), w'.
  split; [exact E|]. split; [apply buildModelMap_NoDup|].
  split; [apply buildModelMap_keys|]. split.
  - intros m ps Hin.
    pose proof (Map_get_In _ _ _ (buildModelMap_NoDup o) Hin) as G.
    rewrite buildModelMap_get in G. simpl in G.
    destruct (repeated_providers o m); congruence.
  - apply repeated_is_spec_providers.
Qed.

Lemma provider_keyed_inversion_witness :
  exists (mm : ModelMap) (w' : World),
    normalizeModels JsonReader.parse "u" (JObj scenarioE) emptyWorld
      = (Ret (map modelObject mm), w')
    /\ NoDup (map fst mm)
    /\ (forall m, In m (map fst mm) <-> mentions scenarioE m)
    /\ (forall m ps, In (m, ps) mm -> ps = repeated_providers scenarioE m)
    /\ (forall m, (forall p v, In (p, v) scenarioE -> occurrences m v <= 1) ->
                  repeated_providers scenarioE m = spec_providers scenarioE m).
Proof.
  apply (provider_keyed_inversion JsonReader.parse "u" scenarioE emptyWorld);
    reflexivity.
Defined.

(** C1 as stated fails on two payloads whose every value is an array of
    strings.  A provider that names a model twice is attached twice; and a
    payload with a key [models] is taken by the [models]-field rule, so
    its canonical list holds the bare strings and no record at all. *)
Lemma provider_keyed_inversion_as_stated_fails :
  let o1 := [("A", JArr [JStr "m"; JStr "m"])] in
  let o2 := [("models", JArr [JStr "m"])] in
  (isProviderKeyedFormat (JObj o1) = true
   /\ mentions o1 "m"
   /\ spec_providers o1 "m" = ["A"]
   /\ fst (normalizeModels JsonReader.parse "u" (JObj o1) emptyWorld)
      = Ret [modelObject ("m", ["A"; "A"])]
   /\ modelObject ("m", ["A"; "A"]) <> modelObject ("m", spec_providers o1 "m"))
  /\
  (isProviderKeyedFormat (JObj o2) = true
   /\ mentions o2 "m"
   /\ fst (normalizeModels JsonReader.parse "u" (JObj o2) emptyWorld)
      = Ret [JStr "m"]
   /\ ~ In (modelObject ("m", spec_providers o2 "m")) [JStr "m"]).
Proof.
  cbv zeta. repeat split; try reflexivity.
  - exists "A", (JArr [JStr "m"; JStr "m"]). split; simpl; auto.
  - discriminate.
  - exists "models", (JArr [JStr "m"]). split; simpl; auto.
  - simpl. intros [H|[]]. discriminate H.
Qed.

(** C6.  Permuting the keys of a provider-keyed payload changes neither
    the number of records in the canonical list nor the names they carry
    (the names of one list are a rearrangement of the names of the
    other). *)
Theorem unique_models_order_independent
    (JSON_parse : string -> option JsVal) (url : string) (o1 o2 : Props) (w : World) :
  NoDup (map fst o1) ->
  Permutation o1 o2 ->
  isProviderKeyedFormat (JObj o1) = true ->
  exists l1 l2 w1 w2,
    normalizeModels JSON_parse url (JObj o1) w = (Ret l1, w1)
    /\ normalizeModels JSON_parse url (JObj o2) w = (Ret l2, w2)
    /\ List.length l1 = List.length l2
    /\ Permutation (recordNames l1) (recordNames l2).
Proof.
  intros Hnd HP HK.
  destruct (normalizeModels_eval JSON_parse url (JObj o1) w) as (w1 & E1 & _).
  destruct (normalizeModels_eval JSON_parse url (JObj o2) w) as (w2 & E2 & _).
  exists (canonical JSON_parse (JObj o1)), (canonical JSON_parse (JObj o2)), w1, w2.
  split; [exact E1|]. split; [exact E2|].
  assert (HN : Permutation (recordNames (canonical JSON_parse (JObj o1)))
                           (recordNames (canonical JSON_parse (JObj o2)))).
  { unfold canonical, classify.
    rewrite <- (props_get_Permutation o1 o2 "models" Hnd HP).
    rewrite <- (props_get_Permutation o1 o2 "data" Hnd HP).
    rewrite <- (isProviderKeyedFormat_Permutation o1 o2 HP). rewrite HK.
    destruct (props_get o1 "models"); try reflexivity;
      destruct (props_get o1 "data"); try reflexivity;
      rewrite !recordNames_modelObject;
      apply Permutation_map, buildModelMap_Permutation, HP. }
  split; [|exact HN].
  apply Permutation_length in HN. unfold recordNames in HN.
  now rewrite !length_map in HN.
Qed.

Lemma unique_models_order_independent_witness :
  exists l1 l2 w1 w2,
    normalizeModels JsonReader.parse "u" (JObj scenarioE) emptyWorld = (Ret l1, w1)
    /\ normalizeModels JsonReader.parse "u" (JObj (rev scenarioE)) emptyWorld
       = (Ret l2, w2)
    /\ List.length l1 = List.length l2
    /\ Permutation (recordNames l1) (recordNames l2).
Proof.
  apply (unique_models_order_independent JsonReader.parse "u"
           scenarioE (rev scenarioE) emptyWorld).
  - repeat constructor; simpl; intuition discriminate.
  - apply Permutation_rev.
  - reflexivity.
Defined.

(** ** Shape detection *)

(** C2.  The normaliser returns the canonical list that [classify]
    describes: an array is taken as it is; else an object's array-valued
    [models] field; else its array-valued [data] field; else a string is
    parsed and only these three rules are tried on the result (nothing else
    yields a record, and a text that does not parse yields none); else an
    object whose every value is an array of strings is inverted; anything
    else gives the empty list.  So an object with an array-valued [models]
    field is taken by the [models] rule even when every value of it is an
    array of strings, and a string whose parse is an object that the
    provider-keyed rule would take yields the empty list. *)
Theorem shape_detection_priority
    (JSON_parse : string -> option JsVal) (url : string) (d : JsVal) (w : World) :
  (exists w', normalizeModels JSON_parse url d w = (Ret (canonical JSON_parse d), w'))
  /\ (forall o items,
        d = JObj o -> props_get o "models" = JArr items ->
        isProviderKeyedFormat d = true ->
        classify d = ObjectWithModelsField items /\ canonical JSON_parse d = items)
  /\ (forall s o,
        d = JStr s -> JSON_parse s = Some (JObj o) ->
        classify (JObj o) = ProviderKeyedMap o ->
        canonical JSON_parse d = []).
Proof.
  split; [|split].
  - destruct (normalizeModels_eval JSON_parse url d w) as (w' & E & _).
    now exists w'.
  - intros o items -> HM _. unfold canonical, classify. now rewrite HM.
  - intros s o -> HP HC. unfold canonical. cbn [classify]. rewrite HP.
    unfold rules_1_to_3. now rewrite HC.
Qed.

Lemma shape_detection_priority_witness :
  let both := JObj [("models", JArr [JStr "m"]); ("A", JArr [JStr "n"])] in
  let text :=
    json_quote "x" ++ ":[" ++ json_quote "m" ++ "]" in
  (classify both = ObjectWithModelsField [JStr "m"]
   /\ canonical JsonReader.parse both = [JStr "m"])
  /\ canonical JsonReader.parse (JStr ("{" ++ text ++ "}")) = [].
Proof.
  cbv zeta. split.
  - exact (proj1 (proj2 (shape_detection_priority JsonReader.parse "u" _ emptyWorld))
             [("models", JArr [JStr "m"]); ("A", JArr [JStr "n"])] [JStr "m"]
             eq_refl eq_refl eq_refl).
  - exact (proj2 (proj2 (shape_detection_priority JsonReader.parse "u" _ emptyWorld))
             ("{" ++ json_quote "x" ++ ":[" ++ json_quote "m" ++ "]" ++ "}")
             [("x", JArr [JStr "m"])] eq_refl eq_refl eq_refl).
Defined.

(** C4.  The normalisation stage returns a list for every payload, raising
    nothing; for a payload that is neither array, object nor string, and
    for a string that does not parse, the list is empty.  [safeStringify]
    returns a string for every value, and that string is at most [max]
    code units long plus the fifteen of the truncation mark. *)
Theorem normalisation_never_raises
    (JSON_parse : string -> option JsVal) (url : string) :
  (forall d w, exists l w', normalizeModels JSON_parse url d w = (Ret l, w'))
  /\ (forall d w,
        uninterpretable JSON_parse d = true ->
        exists w', normalizeModels JSON_parse url d w = (Ret [], w'))
  /\ (forall v max w,
        exists s, safeStringify v max w = (Ret s, w)
                  /\ String.length s <= max + 15).
Proof.
  split; [|split].
  - intros d w. destruct (normalizeModels_eval JSON_parse url d w) as (w' & E & _).
    eauto.
  - intros d w H. destruct (normalizeModels_eval JSON_parse url d w) as (w' & E & _).
    exists w'. rewrite E. f_equal. f_equal.
    unfold canonical. destruct d; try discriminate; try reflexivity.
    cbn [classify]. simpl in H. now destruct (JSON_parse s).
  - intros v max w. exists (sample v max).
    split; [apply safeStringify_returns | apply sample_bound].
Qed.

Lemma normalisation_never_raises_witness :
  (exists w', normalizeModels JsonReader.parse "u" (JStr "not json") emptyWorld
              = (Ret [], w'))
  /\ (exists w', normalizeModels JsonReader.parse "u" (JNum 7) emptyWorld
                 = (Ret [], w')).
Proof.
  split.
  - exact (proj1 (proj2 (normalisation_never_raises JsonReader.parse "u"))
             (JStr "not json") emptyWorld eq_refl).
  - exact (proj1 (proj2 (normalisation_never_raises JsonReader.parse "u"))
             (JNum 7) emptyWorld eq_refl).
Defined.

(** ** Not-found failures *)

Lemma messages_differ (key : string) (upstream : option string) (s1 s2 : string) :
  noModelsFoundMsg key upstream s1 <> noModelsMatchedMsg key upstream s2.
Proof. unfold noModelsFoundMsg, noModelsMatchedMsg. simpl. discriminate. Qed.

(** C3 fails on a payload whose canonical list holds a [null] record:
    the list is not empty and no record of it matches the configured
    provider, yet [getModels] fails with a TypeError, raised by the filter
    callback, and not with a NotFoundException. *)
Theorem not_found_missed_on_null_record :
  let d := JObj [("data", JArr [JNull])] in
  canonical JsonReader.parse d = [JNull]
  /\ fst (getModels asciiLower JsonReader.parse (answering d) testEnv bearer emptyWorld)
     = Throw TypeError
  /\ forall msg,
       fst (getModels asciiLower JsonReader.parse (answering d) testEnv bearer
              emptyWorld)
       <> Throw (NotFoundException msg).
Proof. cbv zeta. split; [reflexivity|]. split; [reflexivity | discriminate]. Qed.

(** X16.  [getModels] fails with a NotFoundException exactly when the
    canonical list is empty, or it is not empty and the filter stage
    returns the empty list.  The message is then the fixed text around the
    lower-cased configured provider, the upstream and the truncated
    sample, at most 1015 code units long, of the raw payload in the first
    case and of the first five models in the second.  A result that is
    returned has at least one entry. *)
Theorem not_found_characterised
    (toLowerCase : string -> string)
    (JSON_parse : string -> option JsVal)
    (upstream_answer : UpstreamRequest -> AxiosResponse) (env : Env)
    (headers : Headers) (w : World) :
  let d := data (upstream_answer (modelsRequest env headers)) in
  let models := canonical JSON_parse d in
  let key := toLowerCase (configuredKey env) in
  let r := fst (getModels toLowerCase JSON_parse upstream_answer env headers w) in
  (forall msg,
      r = Throw (NotFoundException msg) <->
      (models = []
       /\ msg = "No models found for provider '" ++ key ++ "' from upstream "
                  ++ interp (LLM_UPSTREAM env) ++ ". Upstream response shape: "
                  ++ sample d 1000)
      \/ (models <> []
          /\ fst (Array_filter (matchesProvider toLowerCase key) models w) = Ret []
          /\ msg = "No models matched provider '" ++ key ++ "' in upstream "
                     ++ interp (LLM_UPSTREAM env) ++ ". Sample upstream models: "
                     ++ sample (JArr (firstn 5 models)) 1000))
  /\ String.length (sample d 1000) <= 1015
  /\ String.length (sample (JArr (firstn 5 models)) 1000) <= 1015
  /\ (forall v, r = Ret v -> exists item items, v = modelList (item :: items)).
Proof.
  intros d models key r.
  destruct (getModels_eval toLowerCase JSON_parse upstream_answer env headers w)
    as (w' & E & _).
  assert (Hr : r = expectedOutcome toLowerCase env d models) by (unfold r; now rewrite E).
  clearbody r. subst r. clear E w'.
  split; [|split; [apply sample_bound | split; [apply sample_bound|]]].
  - intros msg. rewrite Array_filter_eval. unfold expectedOutcome.
    change (providerKey toLowerCase env) with key.
    unfold noModelsFoundMsg, noModelsMatchedMsg.
    destruct models as [|r0 rest] eqn:EM.
    { split.
      - intros H. left. split; [reflexivity | congruence].
      - intros [[_ ->]|[H _]]; [reflexivity | congruence]. }
    destruct (filterOutcome toLowerCase key (r0 :: rest)) as [[|k kept]|].
    + cbn [fst]. split.
      * intros H. right. split; [discriminate | split; [reflexivity | congruence]].
      * intros [[H _]|[_ [_ ->]]]; [discriminate | reflexivity].
    + cbn [fst]. split; [discriminate | intros [[H _]|[_ [H _]]]; discriminate].
    + cbn [fst]. split; [discriminate | intros [[H _]|[_ [H _]]]; discriminate].
  - intros v. unfold expectedOutcome.
    destruct models as [|r0 rest]; [discriminate|].
    destruct (filterOutcome toLowerCase (providerKey toLowerCase env) (r0 :: rest))
      as [[|k kept]|]; try discriminate.
    intros H. inversion H. cbn [map]. eauto.
Qed.

Lemma not_found_characterised_witness :
  fst (getModels asciiLower JsonReader.parse (answering scenarioD) otherEnv bearer
         emptyWorld)
  = Throw (NotFoundException
             ("No models matched provider 'nonexistentprovider' in upstream "
                ++ "http://test-upstream. Sample upstream models: "
                ++ sample (JArr [modelObject ("gpt-4", ["OpenaiAPI"])]) 1000))
  /\ fst (getModels asciiLower JsonReader.parse (answering (JStr "not json")) testEnv
            bearer emptyWorld)
     = Throw (NotFoundException
                ("No models found for provider 'openaiapi' from upstream "
                   ++ "http://test-upstream. Upstream response shape: not json"))
  /\ exists item items,
       JObj [("object", JStr "list");
             ("data",
              JArr [rendered (modelObject ("claude-3-opus", ["Anthropic"; "OpenaiAPI"]));
                    rendered (modelObject ("gpt-4", ["OpenaiAPI"]))])]
       = modelList (item :: items).
Proof.
  split; [|split].
  - apply (proj2 (proj1 (not_found_characterised asciiLower JsonReader.parse
                           (answering scenarioD) otherEnv bearer emptyWorld) _)).
    right. split; [discriminate | split; reflexivity].
  - apply (proj2 (proj1 (not_found_characterised asciiLower JsonReader.parse
                           (answering (JStr "not json")) testEnv bearer emptyWorld) _)).
    left. split; reflexivity.
  - exact (proj2 (proj2 (proj2 (not_found_characterised asciiLower JsonReader.parse
                           (answering scenarioA) testEnv bearer emptyWorld)))
             _ eq_refl).
Defined.

(** ** The provider filter *)

(** C5 fails on a list that holds a [null] record beside a matching one:
    the record whose providers contain the configured key up to case does
    not survive, for the filter raises a TypeError on the [null] record
    and returns no list at all.  Alone, the record is kept. *)
Theorem matching_record_lost_beside_null :
  let record :=
    JObj [("name", JStr "gpt-4"); ("providers", JArr [JStr "OpenaiAPI"])] in
  fst (Array_filter (matchesProvider asciiLower "openaiapi") [record] emptyWorld)
  = Ret [record]
  /\ fst (Array_filter (matchesProvider asciiLower "openaiapi") [record; JNull]
            emptyWorld)
     = Throw TypeError
  /\ fst (getModels asciiLower JsonReader.parse (answering (JArr [record; JNull]))
            (mkEnv (Some "http://test-upstream") (Some "openaiapi")) bearer
            emptyWorld)
     = Throw TypeError.
Proof. cbv zeta. repeat split. Qed.

Lemma filterOutcome_total (toLowerCase : string -> string) (key : string)
    (models : list JsVal) :
  existsb nullish models = false ->
  (forall r p, In r models -> In p (providersOf r) -> js_String p <> None) ->
  exists kept, filterOutcome toLowerCase key models = Some kept.
Proof.
  induction models as [|r l IH]; intros Hn Hc; cbn [filterOutcome]; [eauto|].
  cbn [existsb] in Hn. apply orb_false_iff in Hn. destruct Hn as [Hr Hl].
  destruct (someProvider_total toLowerCase key (providersOf r)) as (b & Hb).
  { intros p Hp. apply (Hc r p); [now left | exact Hp]. }
  unfold matchesKey at 1. rewrite Hr, Hb.
  destruct IH as (kept & ->); [exact Hl | |eauto].
  intros r' p Hin. apply Hc. now right.
Qed.

(** X17.  The filter returns on a list that has no [null] or [undefined]
    record and whose providers all convert to strings.  Whenever it
    returns, the records it keeps are those of the list that have a
    provider whose string, lower-cased, is the lower-cased configured
    provider, and no other; in particular, when [toLowerCase] gives the
    same string to strings that differ in the case of ASCII letters only,
    a record with a provider string equal to the configured provider up
    to that case is kept. *)
Theorem filter_case_insensitive
    (toLowerCase : string -> string) (env : Env) (models : list JsVal) (w : World) :
  (existsb nullish models = false ->
   (forall r p, In r models -> In p (providersOf r) -> js_String p <> None) ->
   exists kept,
     Array_filter (matchesProvider toLowerCase (providerKey toLowerCase env)) models w
     = (Ret kept, w))
  /\ (forall kept w',
        Array_filter (matchesProvider toLowerCase (providerKey toLowerCase env)) models w
        = (Ret kept, w') ->
        (forall r,
            In r kept <->
            In r models
            /\ exists p t, In p (providersOf r)
                           /\ js_String p = Some t
                           /\ toLowerCase t = toLowerCase (configuredKey env))
        /\ (respects_ascii_case toLowerCase ->
            forall r s,
              In r models -> In (JStr s) (providersOf r) ->
              eq_ignore_case s (configuredKey env) = true ->
              In r kept)).
Proof.
  rewrite Array_filter_eval. split.
  - intros Hn Hc.
    destruct (filterOutcome_total toLowerCase (providerKey toLowerCase env) models Hn Hc)
      as (kept & ->).
    now exists kept.
  - intros kept w'.
    destruct (filterOutcome toLowerCase (providerKey toLowerCase env) models)
      as [k|] eqn:EF; [|discriminate].
    intros H. inversion H; subst k w'. clear H.
    destruct (filterOutcome_kept _ _ _ _ EF) as (Hn & Hall & Hk).
    assert (Hiff : forall r,
               In r kept <->
               In r models
               /\ exists p t, In p (providersOf r)
                              /\ js_String p = Some t
                              /\ toLowerCase t = toLowerCase (configuredKey env)).
    { intros r. rewrite Hk, filter_In. split.
      - intros [Hin Hm]. split; [exact Hin|].
        destruct (matchesKey toLowerCase (providerKey toLowerCase env) r)
          as [[|]|] eqn:Em; try discriminate.
        unfold matchesKey in Em. destruct (nullish r); [discriminate|].
        now apply (someProvider_spec _ _ _ _ Em).
      - intros [Hin Hp]. split; [exact Hin|].
        destruct (Hall r Hin) as (b & Hb). rewrite Hb.
        pose proof Hb as Hb'. unfold matchesKey in Hb'.
        destruct (nullish r); [discriminate|].
        apply (someProvider_spec _ _ _ _ Hb') in Hp. now subst b. }
    split; [exact Hiff|].
    intros Hresp r s Hin Hs Hci. apply Hiff. split; [exact Hin|].
    exists (JStr s), s. split; [exact Hs|]. split; [reflexivity | now apply Hresp].
Qed.

Lemma filter_case_insensitive_witness :
  let record := JObj [("name", JStr "gpt-4"); ("providers", JArr [JStr "OpenaiAPI"])] in
  let other := JObj [("name", JStr "claude"); ("providers", JArr [JStr "Anthropic"])] in
  let env := mkEnv None (Some "openaiapi") in
  In record [record]
  /\ exists kept,
       Array_filter (matchesProvider asciiLower (providerKey asciiLower env))
         [other; record] emptyWorld
       = (Ret kept, emptyWorld).
Proof.
  cbv zeta. split.
  - apply (proj2 (proj2 (filter_case_insensitive asciiLower (mkEnv None (Some "openaiapi"))
                           [JObj [("name", JStr "claude");
                                  ("providers", JArr [JStr "Anthropic"])];
                            JObj [("name", JStr "gpt-4");
                                  ("providers", JArr [JStr "OpenaiAPI"])]]
                           emptyWorld)
                   [JObj [("name", JStr "gpt-4"); ("providers", JArr [JStr "OpenaiAPI"])]]
                   emptyWorld eq_refl)
             asciiLower_respects_ascii_case
             (JObj [("name", JStr "gpt-4"); ("providers", JArr [JStr "OpenaiAPI"])])
             "OpenaiAPI").
    + right. now left.
    + now left.
    + reflexivity.
  - apply (proj1 (filter_case_insensitive asciiLower (mkEnv None (Some "openaiapi"))
                    [JObj [("name", JStr "claude");
                           ("providers", JArr [JStr "Anthropic"])];
                     JObj [("name", JStr "gpt-4");
                           ("providers", JArr [JStr "OpenaiAPI"])]]
                    emptyWorld)).
    + reflexivity.
    + intros r p [<-|[<-|[]]] [<-|[]]; discriminate.
Defined.

(** For a record other than [null] and [undefined], the three shapes of
    [providers] that are tolerated, and the empty list, which matches no
    key, for any other. *)
Lemma recordProviders_shapes (toLowerCase : string -> string) (r : JsVal) (w : World) :
  nullish r = false ->
  exists ps,
    recordProviders r w = (Ret ps, w)
    /\ (forall items, field r "providers" = JArr items -> ps = items)
    /\ (forall s, field r "providers" = JStr s -> ps = [JStr s])
    /\ (forall o, field r "providers" = JObj o -> ps = map JStr (map fst o))
    /\ (other_shape (field r "providers") = true ->
        ps = [] /\ forall key, matchesKey toLowerCase key r = Some false).
Proof.
  intros Hn. exists (providersOf r). split; [now apply recordProviders_eval|].
  unfold matchesKey, providersOf. rewrite Hn.
  repeat split; try (intros ? E; now rewrite E);
    destruct (field r "providers"); try discriminate; reflexivity.
Qed.

(** C7 fails on a record that is [null]: the filter callback reads
    [model.providers] of it and raises a TypeError, so that the payload
    [[null]] makes [getModels] fail with that error instead of treating
    the record as one without providers. *)
Theorem null_record_raises_TypeError :
  fst (recordProviders JNull emptyWorld) = Throw TypeError
  /\ fst (getModels asciiLower JsonReader.parse (answering (JArr [JNull])) testEnv
            bearer emptyWorld)
     = Throw TypeError.
Proof. split; reflexivity. Qed.

(** ** Rendering *)

(** C8.  Whenever the filter stage returns a list that is not empty,
    [getModels] returns, and what it returns is the object
    [{object: "list", data}] whose [data] has, for each record the filter
    kept and in the same order, the entry made of the record's [name], the
    fixed values ["model"], [0], the empty string and [true], and the
    record's [image] or [false].  It returns in no other case. *)
Theorem rendering_of_survivors
    (toLowerCase : string -> string)
    (JSON_parse : string -> option JsVal)
    (upstream_answer : UpstreamRequest -> AxiosResponse) (env : Env)
    (headers : Headers) (w : World) :
  let models := canonical JSON_parse (data (upstream_answer (modelsRequest env headers))) in
  let output := fun kept : list JsVal =>
    JObj
      [("object", JStr "list");
       ("data",
        JArr (map (fun record =>
                     JObj [("id", field record "name");
                           ("object", JStr "model");
                           ("created", JNum 0);
                           ("owned_by", JStr EmptyString);
                           ("image", js_or (field record "image") (JBool false));
                           ("provider", JBool true)])
                  kept))] in
  let r := fst (getModels toLowerCase JSON_parse upstream_answer env headers w) in
  (forall kept w',
      Array_filter (matchesProvider toLowerCase (providerKey toLowerCase env)) models w
      = (Ret kept, w') ->
      kept <> [] -> r = Ret (output kept))
  /\ (forall v,
        r = Ret v ->
        exists kept,
          Array_filter (matchesProvider toLowerCase (providerKey toLowerCase env))
            models w
          = (Ret kept, w)
          /\ kept <> []
          /\ v = output kept).
Proof.
  intros models output r.
  destruct (getModels_eval toLowerCase JSON_parse upstream_answer env headers w)
    as (w2 & E & _).
  assert (Hr : r = expectedOutcome toLowerCase env
                     (data (upstream_answer (modelsRequest env headers))) models)
    by (unfold r; now rewrite E).
  clearbody r. subst r. clear E w2.
  rewrite Array_filter_eval. unfold expectedOutcome, output. split.
  - intros kept w'.
    destruct (filterOutcome toLowerCase (providerKey toLowerCase env) models)
      as [k|] eqn:EF; [|discriminate].
    intros H Hk. inversion H; subst k w'.
    destruct models as [|r0 rest].
    { cbn in EF. inversion EF; subst. now elim Hk. }
    destruct kept; [now elim Hk | reflexivity].
  - intros v. destruct models as [|r0 rest]; [discriminate|].
    destruct (filterOutcome toLowerCase (providerKey toLowerCase env) (r0 :: rest))
      as [[|k l]|]; try discriminate.
    intros H. inversion H. exists (k :: l). split; [reflexivity|].
    split; [discriminate | reflexivity].
Qed.

Lemma rendering_of_survivors_witness :
  fst (getModels asciiLower JsonReader.parse (answering scenarioA) testEnv bearer
         emptyWorld)
  = Ret (JObj
           [("object", JStr "list");
            ("data",
             JArr [JObj [("id", JStr "claude-3-opus");
                         ("object", JStr "model");
                         ("created", JNum 0);
                         ("owned_by", JStr EmptyString);
                         ("image", JBool false);
                         ("provider", JBool true)];
                   JObj [("id", JStr "gpt-4");
                         ("object", JStr "model");
                         ("created", JNum 0);
                         ("owned_by", JStr EmptyString);
                         ("image", JBool false);
                         ("provider", JBool true)]])]).
Proof.
  apply (proj1 (rendering_of_survivors asciiLower JsonReader.parse (answering scenarioA)
                  testEnv bearer emptyWorld)
           [modelObject ("claude-3-opus", ["Anthropic"; "OpenaiAPI"]);
            modelObject ("gpt-4", ["OpenaiAPI"])]
           emptyWorld).
  - reflexivity.
  - discriminate.
Defined.

(** ** The request body *)

Lemma props_get_set_same (o : Props) (k : string) (v : JsVal) :
  props_get (props_set o k v) k = v.
Proof.
  induction o as [|[k0 v0] o IH]; simpl.
  - now rewrite String.eqb_refl.
  - destruct (String.eqb_spec k0 k) as [->|Hk]; simpl.
    + now rewrite String.eqb_refl.
    + destruct (String.eqb_spec k0 k); [contradiction | exact IH].
Qed.

Lemma props_get_set_other (o : Props) (k k' : string) (v : JsVal) :
  k' <> k -> props_get (props_set o k v) k' = props_get o k'.
Proof.
  intros Hne. induction o as [|[k0 v0] o IH]; simpl.
  - destruct (String.eqb_spec k k'); [congruence | reflexivity].
  - destruct (String.eqb_spec k0 k) as [->|Hk]; simpl.
    + destruct (String.eqb_spec k k'); [congruence | reflexivity].
    + destruct (String.eqb_spec k0 k'); [reflexivity | exact IH].
Qed.

Lemma heap_update_same (h : list Props) (l : loc) (o x : Props) :
  nth_error h l = Some o ->
  nth_error (firstn l h ++ x :: skipn (S l) h) l = Some x.
Proof.
  revert h. induction l as [|l IH]; intros [|o0 h] H; simpl in *; try discriminate.
  - reflexivity.
  - now apply IH.
Qed.

Lemma heap_update_other (h : list Props) (l l' : loc) (o x : Props) :
  nth_error h l = Some o -> l' <> l ->
  nth_error (firstn l h ++ x :: skipn (S l) h) l' = nth_error h l'.
Proof.
  revert h l'. induction l as [|l IH]; intros [|o0 h] l' H Hne; simpl in *;
    try discriminate.
  - destruct l'; [congruence | reflexivity].
  - destruct l'; [reflexivity|]. simpl. apply (IH h l' H). congruence.
Qed.

Lemma postCompletions_eval (env : Env) (headers : Headers) (w : World)
    (l : loc) (o : Props) :
  nth_error (heap w) l = Some o ->
  postCompletions env (Some l) headers w =
  (Ret (mkReq POST (interp (LLM_UPSTREAM env) ++ "/v1/chat/completions")
          ([("Accept", "application/json"); ("Content-Type", "application/json")]
             ++ auth_headers (header_get headers "authorization"))
          (Some l) RtStream),
   mkWorld (firstn l (heap w)
              ++ props_set o "provider" (configuredProvider env)
              :: skipn (S l) (heap w))
           (logs w) (sent w)).
Proof.
  intros H. unfold postCompletions, bind, setBodyProp, ret. now rewrite H.
Qed.

(** C10.  [postCompletions] writes the configured provider into the
    [provider] property of the very object it was given, replacing a value
    the caller put there, and forwards that same object: every other
    property of it, every other object, the log and the requests already
    sent are as before. *)
Theorem postCompletions_sets_provider_in_place
    (env : Env) (headers : Headers) (w : World) (l : loc) (o : Props) :
  nth_error (heap w) l = Some o ->
  exists req w' o',
    postCompletions env (Some l) headers w = (Ret req, w')
    /\ req_body req = Some l
    /\ nth_error (heap w') l = Some o'
    /\ o' = props_set o "provider" (configuredProvider env)
    /\ props_get o' "provider" = configuredProvider env
    /\ (forall k, k <> "provider" -> props_get o' k = props_get o k)
    /\ (forall l', l' <> l -> nth_error (heap w') l' = nth_error (heap w) l')
    /\ logs w' = logs w
    /\ sent w' = sent w.
Proof.
  intros H. rewrite (postCompletions_eval env headers w l o H).
  do 3 eexists. split; [reflexivity|]. cbn [req_body heap logs sent].
  split; [reflexivity|]. split; [eapply heap_update_same; exact H|].
  split; [reflexivity|]. split; [apply props_get_set_same|].
  split; [intros k Hk; now apply props_get_set_other|].
  split; [intros l' Hl; eapply heap_update_other; eassumption|].
  split; reflexivity.
Qed.

Lemma postCompletions_sets_provider_in_place_witness :
  let body := [("model", JStr "gpt-4"); ("provider", JStr "Mine"); ("stream", JBool true)] in
  exists req w' o',
    postCompletions testEnv (Some 0) bearer (mkWorld [body] [] []) = (Ret req, w')
    /\ req_body req = Some 0
    /\ nth_error (heap w') 0 = Some o'
    /\ o' = [("model", JStr "gpt-4"); ("provider", JStr "OpenaiAPI");
             ("stream", JBool true)]
    /\ props_get o' "provider" = JStr "OpenaiAPI"
    /\ (forall k, k <> "provider" -> props_get o' k = props_get body k)
    /\ (forall l', l' <> 0 -> nth_error (heap w') l' = nth_error [body] l')
    /\ logs w' = []
    /\ sent w' = [].
Proof.
  exact (postCompletions_sets_provider_in_place testEnv bearer
           (mkWorld [[("model", JStr "gpt-4"); ("provider", JStr "Mine");
                      ("stream", JBool true)]] [] [])
           0 _ eq_refl).
Defined.

(** ** The Authorization header *)

(** C9, as amended.  The models call and the chat-completions call carry
    the inbound [authorization] header, under the name [Authorization]
    and with the same value, when that value is not the empty string, and
    carry no such header when it is absent or empty.  The providers call
    is made without headers, whatever the inbound request carries. *)
Theorem authorization_passthrough (toLowerCase : string -> string)
    (JSON_parse : string -> option JsVal)
    (upstream_answer : UpstreamRequest -> AxiosResponse) (env : Env)
    (headers : Headers) (w : World) :
  let forwarded := auth_headers (header_get headers "authorization") in
  sent (snd (controller_getModels toLowerCase JSON_parse upstream_answer env headers w))
  = (sent w ++ [mkReq GET (modelsUrl env) forwarded None RtJson])%list
  /\ (forall l o,
        nth_error (heap w) l = Some o ->
        sent (snd (controller_postCompletions upstream_answer env (Some l) headers w))
        = (sent w
             ++ [mkReq POST (interp (LLM_UPSTREAM env) ++ "/v1/chat/completions")
                   ([("Accept", "application/json");
                     ("Content-Type", "application/json")] ++ forwarded)
                   (Some l) RtStream])%list)
  /\ sent (snd (controller_getProviders upstream_answer env headers w))
     = (sent w ++ [mkReq GET (interp (LLM_UPSTREAM env) ++ "/v1/providers")
                     [] None RtJson])%list
  /\ (forall a,
        header_get headers "authorization" = Some a -> a <> EmptyString ->
        forwarded = [("Authorization", a)])
  /\ (header_get headers "authorization" = None
      \/ header_get headers "authorization" = Some EmptyString ->
      forwarded = []).
Proof.
  intros forwarded. split; [|split; [|split; [|split]]].
  - destruct (getModels_eval toLowerCase JSON_parse upstream_answer env headers w)
      as (w' & E & _ & S).
    unfold controller_getModels. rewrite E. exact S.
  - intros l o H. unfold controller_postCompletions.
    step (postCompletions_eval env headers w l o H).
    reflexivity.
  - reflexivity.
  - intros a Ha Hne. unfold forwarded, auth_headers. rewrite Ha.
    destruct (String.eqb_spec a EmptyString); [contradiction | reflexivity].
  - intros [Hn|He]; unfold forwarded, auth_headers; rewrite ?Hn, ?He; reflexivity.
Qed.

Lemma authorization_passthrough_witness :
  auth_headers (header_get bearer "authorization") = [("Authorization", "Bearer test")]
  /\ sent (snd (controller_postCompletions (answering JNull) testEnv (Some 0) bearer
                  (mkWorld [[("model", JStr "gpt-4")]] [] [])))
     = [mkReq POST "http://test-upstream/v1/chat/completions"
          [("Accept", "application/json"); ("Content-Type", "application/json");
           ("Authorization", "Bearer test")]
          (Some 0) RtStream].
Proof.
  split.
  - apply (proj1 (proj2 (proj2 (proj2
             (authorization_passthrough asciiLower JsonReader.parse (answering JNull) testEnv
                bearer emptyWorld)))) "Bearer test" eq_refl).
    discriminate.
  - exact (proj1 (proj2
             (authorization_passthrough asciiLower JsonReader.parse (answering JNull) testEnv
                bearer (mkWorld [[("model", JStr "gpt-4")]] [] [])))
             0 [("model", JStr "gpt-4")] eq_refl).
Defined.

(** C9 as stated fails: with an inbound [authorization] header the
    providers call goes upstream without any header, and an inbound header
    whose value is the empty string is not forwarded by the models call. *)
Lemma authorization_passthrough_as_stated_fails :
  header_get bearer "authorization" = Some "Bearer test"
  /\ map req_headers
       (sent (snd (controller_getProviders (answering (JStr "[]")) testEnv bearer
                     emptyWorld)))
     = [[]]
  /\ header_get [("authorization", EmptyString)] "authorization" = Some EmptyString
  /\ map req_headers
       (sent (snd (controller_getModels asciiLower JsonReader.parse (answering scenarioA) testEnv
                     [("authorization", EmptyString)] emptyWorld)))
     = [[]].
Proof. repeat split. Qed.

(** ** The scenarios of the test suite *)

Example scenarioA_ids :
  resultIds (fst (getModels asciiLower JsonReader.parse (answering scenarioA) testEnv bearer
                    emptyWorld))
  = Some [JStr "claude-3-opus"; JStr "gpt-4"].
Proof. reflexivity. Qed.

Example scenarioB_ids :
  resultIds (fst (getModels asciiLower JsonReader.parse (answering scenarioB) testEnv bearer
                    emptyWorld))
  = Some [JStr "gpt-4"; JStr "gpt-3.5-turbo"].
Proof. reflexivity. Qed.

Example scenarioC_ids :
  resultIds (fst (getModels asciiLower JsonReader.parse (answering scenarioC) testEnv bearer
                    emptyWorld))
  = Some [JStr "gpt-4"; JStr "gpt-3.5-turbo"].
Proof. reflexivity. Qed.

Example scenarioC_as_text :
  JsonReader.parse scenarioC_text = Some scenarioC
  /\ resultIds (fst (getModels asciiLower JsonReader.parse (answering (JStr scenarioC_text))
                       testEnv bearer emptyWorld))
     = Some [JStr "gpt-4"; JStr "gpt-3.5-turbo"].
Proof. split; reflexivity. Qed.

Example scenarioD_not_found :
  fst (getModels asciiLower JsonReader.parse (answering scenarioD) otherEnv bearer emptyWorld)
  = Throw (NotFoundException
             (noModelsMatchedMsg "nonexistentprovider" (Some "http://test-upstream")
                (sample (JArr [modelObject ("gpt-4", ["OpenaiAPI"])]) 1000))).
Proof. reflexivity. Qed.

Example scenarioE_counts :
  canonical JsonReader.parse (JObj scenarioE)
  = [modelObject ("m", ["A"; "B"; "C"]); modelObject ("x", ["B"])]
  /\ resultIds (fst (getModels asciiLower JsonReader.parse (answering (JObj scenarioE))
                       (mkEnv (Some "http://test-upstream") (Some "B")) bearer
                       emptyWorld))
     = Some [JStr "m"; JStr "x"].
Proof. split; reflexivity. Qed.

(** * Further properties *)

(** ** The state after each stage *)

Lemma add_logs_nil (w : World) : add_logs w [] = w.
Proof. destruct w. unfold add_logs. simpl. now rewrite app_nil_r. Qed.

Lemma add_logs_app (w : World) (a b : list LogLine) :
  add_logs (add_logs w a) b = add_logs w (a ++ b).
Proof. unfold add_logs. simpl. now rewrite app_assoc. Qed.

Lemma unexpectedShape_world (url : string) (d : JsVal) (w : World) :
  unexpectedShape url d w =
  (Ret [],
   add_logs w
     [mkLog LWarn
        ("Unexpected models response shape from upstream " ++ url ++ ": "
           ++ sample d 1000)]).
Proof. unfold unexpectedShape. step (safeStringify_returns d 1000 w). reflexivity. Qed.

(** The normalisation stage, with the exact state it leaves. *)
Lemma normalizeModels_world (JSON_parse : string -> option JsVal)
    (url : string) (d : JsVal) (w : World) :
  normalizeModels JSON_parse url d w
  = (Ret (canonical JSON_parse d), add_logs w (normalizeLog JSON_parse url d)).
Proof.
  unfold normalizeModels.
  destruct (Array_isArray d) eqn:EA.
  { destruct d; try discriminate. unfold normalizeLog. cbn [classify].
    now rewrite add_logs_nil. }
  step (has_array_field_eval d "models" w).
  destruct (Array_isArray (field d "models")) eqn:EM.
  { step (getProp_array_field _ _ w EM).
    destruct d; try discriminate. cbn [field] in *.
    unfold canonical, normalizeLog, classify.
    destruct (props_get props "models"); try discriminate.
    now rewrite add_logs_nil. }
  step (has_array_field_eval d "data" w).
  destruct (Array_isArray (field d "data")) eqn:ED.
  { step (getProp_array_field _ _ w ED).
    destruct d; try discriminate. cbn [field] in *.
    unfold canonical, normalizeLog, classify.
    destruct (props_get props "models"); try discriminate;
      destruct (props_get props "data"); try discriminate;
      now rewrite add_logs_nil. }
  destruct d as [| |b|z|s|items|o]; try discriminate.
  - exact (unexpectedShape_world url JUndefined w).
  - exact (unexpectedShape_world url JNull w).
  - destruct b; exact (unexpectedShape_world url (JBool _) w).
  - cbn [truthy typeof]. destruct (Z.eqb z 0);
      exact (unexpectedShape_world url (JNum z) w).
  - change (String.eqb (typeof (JStr s)) "string") with true. cbv iota.
    unfold canonical, normalizeLog, classify, try_catch.
    unfold bind at 1. unfold ToString. cbn [js_String]. unfold ret at 1.
    unfold JSON_parse_M.
    destruct (JSON_parse s) as [parsed|] eqn:EP.
    + unfold bind at 1, ret at 1. rewrite rules_1_to_3_eval.
      now rewrite add_logs_nil.
    + unfold bind at 1, throw.
      step (safeStringify_returns (JStr s) 500 w). reflexivity.
  - cbn [field] in *.
    change (String.eqb (typeof (JObj o)) "string") with false.
    change (truthy (JObj o) && String.eqb (typeof (JObj o)) "object") with true.
    cbv iota. unfold canonical, normalizeLog, classify.
    destruct (props_get o "models"); try discriminate;
      destruct (props_get o "data"); try discriminate;
      (destruct (isProviderKeyedFormat (JObj o));
       [ reflexivity | apply unexpectedShape_world ]).
Qed.

(** Lines 112-157, with the exact state they leave. *)
Lemma filterAndRender_world (toLowerCase : string -> string) (env : Env)
    (d : JsVal) (models : list JsVal) (w : World) :
  filterAndRender toLowerCase env d models w
  = (expectedOutcome toLowerCase env d models,
     add_logs w (outcomeLog (expectedOutcome toLowerCase env d models))).
Proof.
  unfold filterAndRender, expectedOutcome.
  destruct models as [|r0 rest]; cbn [List.length Nat.eqb].
  { unfold bind at 1. unfold bind at 1.
    rewrite safeStringify_returns. reflexivity. }
  set (models := r0 :: rest).
  unfold bind at 1. unfold ret at 1. unfold bind at 1.
  rewrite Array_filter_eval.
  destruct (filterOutcome toLowerCase (providerKey toLowerCase env) models)
    as [kept|] eqn:EF.
  2:{ cbn [outcomeLog]. now rewrite add_logs_nil. }
  pose proof (filterOutcome_kept_not_nullish _ _ _ _ EF) as EK.
  destruct kept as [|k0 kept]; cbn [List.length Nat.eqb].
  { unfold bind at 1. unfold bind at 1.
    rewrite safeStringify_returns. reflexivity. }
  unfold bind at 1. unfold ret at 1.
  step (Array_map_eval (k0 :: kept) w EK).
  cbn [outcomeLog]. now rewrite add_logs_nil.
Qed.

(** One call of [getModels], with the exact state it leaves. *)
Lemma getModels_world (toLowerCase : string -> string) (JSON_parse : string -> option JsVal)
    (upstream_answer : UpstreamRequest -> AxiosResponse) (env : Env)
    (headers : Headers) (w : World) :
  let resp := upstream_answer (modelsRequest env headers) in
  getModels toLowerCase JSON_parse upstream_answer env headers w
  = (expectedOutcome toLowerCase env (data resp) (canonical JSON_parse (data resp)),
     mkWorld (heap w)
             (logs w ++ getModelsLog toLowerCase JSON_parse env resp)
             (sent w ++ [modelsRequest env headers])).
Proof.
  intros resp. unfold getModels.
  unfold bind at 1. unfold http_get. fold (modelsRequest env headers). fold resp.
  unfold bind at 1. unfold logger at 1.
  unfold bind at 1. rewrite normalizeModels_world.
  rewrite filterAndRender_world.
  unfold add_logs, getModelsLog. cbn [heap logs sent].
  now rewrite <- !app_assoc.
Qed.

Lemma normalizeLog_no_error (JSON_parse : string -> option JsVal) (url : string)
    (d : JsVal) :
  existsb is_error (normalizeLog JSON_parse url d) = false.
Proof.
  unfold normalizeLog. destruct (classify d); try reflexivity.
  now destruct (JSON_parse text).
Qed.

(** X2.  A not-found failure of [getModels] is always logged: the last
    line the call writes is an error line carrying exactly the message of
    the exception, and it is the only error line of the call.  A call that
    returns, or fails otherwise, writes no error line. *)
Theorem not_found_is_logged (toLowerCase : string -> string)
    (JSON_parse : string -> option JsVal)
    (upstream_answer : UpstreamRequest -> AxiosResponse) (env : Env)
    (headers : Headers) (w : World) :
  let r := fst (getModels toLowerCase JSON_parse upstream_answer env headers w) in
  let w' := snd (getModels toLowerCase JSON_parse upstream_answer env headers w) in
  exists lines,
    logs w' = (logs w ++ lines)%list
    /\ (forall msg,
          r = Throw (NotFoundException msg) ->
          exists before,
            lines = (before ++ [mkLog LError msg])%list
            /\ existsb is_error before = false)
    /\ ((forall msg, r <> Throw (NotFoundException msg)) ->
        existsb is_error lines = false).
Proof.
  cbv zeta. rewrite getModels_world. cbn [fst snd logs].
  eexists. split; [reflexivity|].
  unfold getModelsLog.
  set (resp := upstream_answer (modelsRequest env headers)).
  set (out := expectedOutcome toLowerCase env (data resp) (canonical JSON_parse (data resp))).
  set (fetched := mkLog LDebug _).
  pose proof (normalizeLog_no_error JSON_parse (modelsUrl env) (data resp)) as HN.
  split.
  - intros msg ->. cbn [outcomeLog].
    exists (fetched :: normalizeLog JSON_parse (modelsUrl env) (data resp)).
    split; [reflexivity|]. cbn [existsb]. exact HN.
  - intros H. cbn [existsb]. rewrite existsb_app, HN.
    destruct out as [v|[| |msg]]; try reflexivity.
    now elim (H msg).
Qed.

Lemma not_found_is_logged_witness :
  exists before,
    getModelsLog asciiLower JsonReader.parse otherEnv (answering scenarioD (modelsRequest otherEnv bearer))
    = (before
         ++ [mkLog LError
               (noModelsMatchedMsg "nonexistentprovider" (Some "http://test-upstream")
                  (sample (JArr [modelObject ("gpt-4", ["OpenaiAPI"])]) 1000))])%list
    /\ existsb is_error before = false.
Proof.
  destruct (not_found_is_logged asciiLower JsonReader.parse (answering scenarioD) otherEnv bearer
              emptyWorld) as (lines & Hl & Hnf & _).
  rewrite getModels_world in Hl. cbn [snd logs emptyWorld app] in Hl. subst lines.
  apply Hnf. reflexivity.
Defined.

(** X3.  The normalisation stage writes at most one line.  It writes a
    warning exactly when no rule accepts the payload or the payload is a
    string that does not parse; a string that parses is never warned
    about, whatever it parses to, so that a parsed value no rule accepts
    gives the empty list silently. *)
Theorem normalisation_warnings
    (JSON_parse : string -> option JsVal) (url : string) (d : JsVal) (w : World) :
  exists lines,
    snd (normalizeModels JSON_parse url d w) = add_logs w lines
    /\ List.length lines <= 1
    /\ (existsb is_warning lines = true <->
        classify d = Unrecognized
        \/ exists s, d = JStr s /\ JSON_parse s = None)
    /\ (forall s parsed,
          d = JStr s -> JSON_parse s = Some parsed ->
          lines = [] /\ canonical JSON_parse d = rules_1_to_3 parsed).
Proof.
  exists (normalizeLog JSON_parse url d).
  rewrite normalizeModels_world. cbn [snd]. split; [reflexivity|].
  unfold normalizeLog, canonical.
  split; [|split].
  - destruct (classify d); simpl; try lia. destruct (JSON_parse text); simpl; lia.
  - destruct d as [| |b|z|s|items|o]; cbn [classify];
      try (simpl; split; [intros _; now left | reflexivity]).
    + destruct (JSON_parse s) eqn:E; simpl.
      * split; [discriminate|]. intros [H|(s' & H & H')]; [discriminate|].
        inversion H; subst. congruence.
      * split; [|reflexivity]. intros _. right. now exists s.
    + simpl. split; [discriminate | intros [H|(s' & H & _)]; discriminate].
    + destruct (props_get o "models"), (props_get o "data");
        try (simpl; split; [discriminate | intros [H|(s' & H & _)]; discriminate]);
        destruct (isProviderKeyedFormat (JObj o)); simpl;
        try (split; [discriminate | intros [H|(s' & H & _)]; discriminate]);
        (split; [intros _; now left | reflexivity]).
  - intros s parsed -> HP. cbn [classify]. now rewrite HP.
Qed.

Lemma normalisation_warnings_witness :
  let text := "{" ++ json_quote "x" ++ ":[" ++ json_quote "m" ++ "]" ++ "}" in
  normalizeLog JsonReader.parse "u" (JStr text) = []
  /\ canonical JsonReader.parse (JStr text) = [].
Proof.
  cbv zeta.
  destruct (normalisation_warnings JsonReader.parse "u"
              (JStr ("{" ++ json_quote "x" ++ ":[" ++ json_quote "m" ++ "]" ++ "}"))
              emptyWorld) as (lines & Hl & _ & _ & Hs).
  destruct (Hs _ (JObj [("x", JArr [JStr "m"])]) eq_refl eq_refl) as [Hn Hc].
  split; [|exact Hc]. reflexivity.
Defined.

(** ** The order of the canonical list *)

Lemma first_occurrences_app (seen l1 l2 : list string) :
  first_occurrences seen (l1 ++ l2)
  = (first_occurrences seen l1
       ++ first_occurrences (seen ++ first_occurrences seen l1) l2)%list.
Proof.
  revert seen. induction l1 as [|x l1 IH]; intros seen; simpl.
  - now rewrite app_nil_r.
  - destruct (existsb (String.eqb x) seen); [apply IH|].
    simpl. rewrite IH. now rewrite <- app_assoc.
Qed.

Lemma existsb_eqb_Map_get (acc : ModelMap) (x : string) :
  existsb (String.eqb x) (map fst acc)
  = match Map_get acc x with Some _ => true | None => false end.
Proof.
  induction acc as [|[k v] acc IH]; simpl; [reflexivity|].
  rewrite String.eqb_sym. destruct (String.eqb k x); [reflexivity | exact IH].
Qed.

Lemma inner_loop_keys (p : string) (items : list JsVal) (acc : ModelMap) :
  map fst (fold_left (addModel p) items acc)
  = (map fst acc ++ first_occurrences (map fst acc) (item_names items))%list.
Proof.
  revert acc. induction items as [|x items IH]; intros acc; simpl.
  - now rewrite app_nil_r.
  - rewrite IH. destruct x as [| | | |s| |]; try reflexivity.
    cbn [addModel app first_occurrences]. rewrite Map_set_keys, existsb_eqb_Map_get.
    destruct (Map_get acc s); [reflexivity|]. now rewrite <- app_assoc.
Qed.

Lemma outer_loop_keys (o : Props) (acc : ModelMap) :
  map fst (fold_left addProvider o acc)
  = (map fst acc ++ first_occurrences (map fst acc) (mentioned_names o))%list.
Proof.
  revert acc. induction o as [|[p v] o IH]; intros acc.
  - simpl. now rewrite app_nil_r.
  - change (fold_left addProvider ((p, v) :: o) acc)
      with (fold_left addProvider o (addProvider acc (p, v))).
    change (mentioned_names ((p, v) :: o))
      with (item_names (array_items v) ++ mentioned_names o)%list.
    rewrite IH, addProvider_fold, inner_loop_keys, first_occurrences_app.
    now rewrite <- app_assoc.
Qed.

(** X4.  For a payload that reaches the provider-keyed rule, the records
    of the canonical list come in the order in which the model names are
    first met when the providers are read in key order and each provider's
    list from its first item on. *)
Theorem canonical_order_is_first_mention
    (JSON_parse : string -> option JsVal) (o : Props) :
  isProviderKeyedFormat (JObj o) = true ->
  Array_isArray (props_get o "models") = false ->
  Array_isArray (props_get o "data") = false ->
  recordNames (canonical JSON_parse (JObj o))
  = map JStr (first_occurrences [] (mentioned_names o)).
Proof.
  intros HP HM HD. rewrite (canonical_provider_keyed JSON_parse o HP HM HD).
  rewrite recordNames_modelObject. f_equal.
  unfold buildModelMap. cbn [Object_entries]. now rewrite outer_loop_keys.
Qed.

Lemma canonical_order_is_first_mention_witness :
  recordNames (canonical JsonReader.parse scenarioA)
  = [JStr "claude-3-opus"; JStr "claude-3-sonnet"; JStr "gpt-4"].
Proof.
  exact (canonical_order_is_first_mention JsonReader.parse
           [("Anthropic", JArr [JStr "claude-3-opus"; JStr "claude-3-sonnet"]);
            ("OpenaiAPI", JArr [JStr "gpt-4"; JStr "claude-3-opus"])]
           eq_refl eq_refl eq_refl).
Defined.

(** ** Provider-keyed payloads, end to end *)

Lemma In_repeated_providers (o : Props) (m p : string) :
  In p (repeated_providers o m) <->
  exists v, In (p, v) o /\ In (JStr m) (array_items v).
Proof.
  unfold repeated_providers. rewrite in_flat_map. split.
  - intros ([p' v] & Hin & Hr). cbn [fst snd] in Hr.
    pose proof (repeat_spec _ _ _ Hr) as ->.
    exists v. split; [assumption|]. apply occurrences_pos.
    destruct (occurrences m v); [contradiction | lia].
  - intros (v & Hin & Hm). exists (p, v). split; [assumption|]. cbn [fst snd].
    apply occurrences_pos in Hm. destruct (occurrences m v); [lia | now left].
Qed.

Lemma someProvider_strings (toLowerCase : string -> string) (key : string)
    (ps : list string) :
  someProvider toLowerCase key (map JStr ps)
  = Some (existsb (fun p => String.eqb (toLowerCase p) key) ps).
Proof.
  induction ps as [|p ps IH]; [reflexivity|].
  cbn [map someProvider existsb]. unfold providerIs. cbn [js_String].
  destruct (String.eqb (toLowerCase p) key); [reflexivity | exact IH].
Qed.

Lemma matchesKey_modelObject (toLowerCase : string -> string) (key : string)
    (e : string * list string) :
  matchesKey toLowerCase key (modelObject e)
  = Some (existsb (fun p => String.eqb (toLowerCase p) key) (snd e)).
Proof. destruct e as [m ps]. apply someProvider_strings. Qed.

Lemma filterOutcome_modelObject (toLowerCase : string -> string) (key : string)
    (mm : ModelMap) :
  filterOutcome toLowerCase key (map modelObject mm)
  = Some (map modelObject
            (filter (fun e => existsb (fun p => String.eqb (toLowerCase p) key) (snd e))
                    mm)).
Proof.
  induction mm as [|e mm IH]; [reflexivity|].
  cbn [map filterOutcome filter]. rewrite matchesKey_modelObject, IH.
  now destruct (existsb _ (snd e)).
Qed.

Lemma NoDup_map_fst_filter {A B} (f : A * B -> bool) (l : list (A * B)) :
  NoDup (map fst l) -> NoDup (map fst (filter f l)).
Proof.
  induction l as [|x l IH]; simpl; [auto|].
  intros H. inversion H as [|? ? Hn Hnd]; subst.
  destruct (f x); simpl; [|auto].
  constructor; [|auto]. intros Hin. apply Hn.
  apply in_map_iff in Hin. destruct Hin as (y & E & Hy).
  apply filter_In in Hy. apply in_map_iff. exists y. tauto.
Qed.

(** X5.  For a payload that reaches the provider-keyed rule, [getModels]
    returns exactly the models listed by a provider whose lower-cased name
    is the lower-cased configured provider, each once; when no such
    provider lists a model it fails with a NotFoundException. *)
Theorem provider_keyed_end_to_end
    (toLowerCase : string -> string)
    (JSON_parse : string -> option JsVal)
    (upstream_answer : UpstreamRequest -> AxiosResponse) (env : Env)
    (headers : Headers) (w : World) (o : Props) :
  data (upstream_answer (modelsRequest env headers)) = JObj o ->
  isProviderKeyedFormat (JObj o) = true ->
  Array_isArray (props_get o "models") = false ->
  Array_isArray (props_get o "data") = false ->
  let r := fst (getModels toLowerCase JSON_parse upstream_answer env headers w) in
  ((exists m, listed_by toLowerCase o (configuredKey env) m) ->
   exists ids,
     resultIds r = Some (map JStr ids)
     /\ NoDup ids
     /\ forall m, In m ids <-> listed_by toLowerCase o (configuredKey env) m)
  /\ ((forall m, ~ listed_by toLowerCase o (configuredKey env) m) ->
      exists msg, r = Throw (NotFoundException msg)).
Proof.
  intros Hd HP HM HD r. unfold r. rewrite getModels_world. cbn [fst].
  rewrite Hd, (canonical_provider_keyed JSON_parse o HP HM HD).
  set (mm := buildModelMap (JObj o)).
  set (key := providerKey toLowerCase env).
  set (keep := fun e : string * list string =>
                 existsb (fun p => String.eqb (toLowerCase p) key) (snd e)).
  assert (Hlisted : forall m,
             In m (map fst (filter keep mm))
             <-> listed_by toLowerCase o (configuredKey env) m).
  { intros m. rewrite in_map_iff. split.
    - intros ([m' ps] & E & Hin). cbn in E. subst m'.
      apply filter_In in Hin. destruct Hin as [Hin Hk].
      unfold keep in Hk. cbn [snd] in Hk. apply existsb_exists in Hk.
      destruct Hk as (p & Hp & Hci). apply String.eqb_eq in Hci.
      pose proof (Map_get_In _ _ _ (buildModelMap_NoDup o) Hin) as G.
      fold mm in G. unfold mm in G. rewrite buildModelMap_get in G. simpl in G.
      destruct (repeated_providers o m) eqn:R; [discriminate|].
      inversion G; subst ps. rewrite <- R in Hp.
      apply In_repeated_providers in Hp. destruct Hp as (v & Hv & Hm).
      now exists p, v.
    - intros (p & v & Hv & Hci & Hm).
      assert (Hp : In p (repeated_providers o m))
        by (apply In_repeated_providers; now exists v).
      pose proof (buildModelMap_get o m) as G. simpl in G.
      destruct (repeated_providers o m) as [|p0 ps0] eqn:R; [contradiction|].
      assert (Hin : In (m, p0 :: ps0) mm).
      { clear - G. unfold mm. induction (buildModelMap (JObj o)) as [|[k x] l IH];
          simpl in G; [discriminate|].
        destruct (String.eqb_spec k m) as [->|]; [left; congruence | right; auto]. }
      exists (m, p0 :: ps0). split; [reflexivity|].
      apply filter_In. split; [exact Hin|].
      unfold keep. cbn [snd]. apply existsb_exists. exists p.
      split; [exact Hp | now apply String.eqb_eq]. }
  assert (Hids : forall l : ModelMap,
             map (fun e => field e "id") (map rendered (map modelObject l))
             = map JStr (map fst l)).
  { intros l. rewrite !map_map. apply map_ext. now intros [k x]. }
  unfold expectedOutcome. fold key.
  rewrite (filterOutcome_modelObject toLowerCase key mm). fold keep.
  destruct (map modelObject mm) as [|r0 rest] eqn:EM.
  - apply map_eq_nil in EM. split; [|eauto].
    intros (m & Hm). apply Hlisted in Hm. rewrite EM in Hm. contradiction.
  - split.
    + intros (m & Hm). apply Hlisted in Hm.
      exists (map fst (filter keep mm)).
      split; [|split; [apply NoDup_map_fst_filter, buildModelMap_NoDup | exact Hlisted]].
      rewrite <- Hids.
      destruct (filter keep mm) as [|e kept]; [contradiction | reflexivity].
    + intros Hnone.
      assert (EK : filter keep mm = []).
      { destruct (filter keep mm) as [|[m ps] l] eqn:E; [reflexivity|].
        exfalso. apply (Hnone m). apply Hlisted. now left. }
      rewrite EK. cbn [map]. eauto.
Qed.

Lemma provider_keyed_end_to_end_witness :
  exists ids,
    resultIds (fst (getModels asciiLower JsonReader.parse (answering scenarioA)
                      (mkEnv None (Some "OPENAIAPI")) bearer emptyWorld))
    = Some (map JStr ids)
    /\ NoDup ids
    /\ forall m,
         In m ids <->
         listed_by asciiLower (Object_entries scenarioA) "OPENAIAPI" m.
Proof.
  apply (proj1 (provider_keyed_end_to_end asciiLower JsonReader.parse
                  (answering scenarioA)
                  (mkEnv None (Some "OPENAIAPI")) bearer emptyWorld
                  (Object_entries scenarioA) eq_refl eq_refl eq_refl eq_refl)).
  exists "gpt-4", "OpenaiAPI", (JArr [JStr "gpt-4"; JStr "claude-3-opus"]).
  split; [right; now left|]. split; [reflexivity | now left].
Defined.

(** ** The configured provider *)

(** X6.  [getModels] depends on the configured provider only up to the
    case of ASCII letters: as [toLowerCase] gives the same string to
    strings that differ in that case only, two environments with the same
    upstream whose providers differ in case only give the same outcome,
    the same request and the same log lines, messages included. *)
Theorem configured_case_irrelevant
    (toLowerCase : string -> string)
    (JSON_parse : string -> option JsVal)
    (upstream_answer : UpstreamRequest -> AxiosResponse) (env1 env2 : Env)
    (headers : Headers) (w : World) :
  respects_ascii_case toLowerCase ->
  LLM_UPSTREAM env1 = LLM_UPSTREAM env2 ->
  eq_ignore_case (configuredKey env1) (configuredKey env2) = true ->
  getModels toLowerCase JSON_parse upstream_answer env1 headers w
  = getModels toLowerCase JSON_parse upstream_answer env2 headers w.
Proof.
  intros HR HU HC. apply HR in HC.
  assert (HK : providerKey toLowerCase env1 = providerKey toLowerCase env2) by exact HC.
  rewrite !getModels_world.
  assert (HQ : modelsRequest env1 headers = modelsRequest env2 headers)
    by (unfold modelsRequest, modelsUrl; now rewrite HU).
  rewrite HQ.
  unfold getModelsLog, expectedOutcome, modelsUrl. now rewrite HU, HK.
Qed.

Lemma configured_case_irrelevant_witness :
  getModels asciiLower JsonReader.parse (answering scenarioA) testEnv bearer emptyWorld
  = getModels asciiLower JsonReader.parse (answering scenarioA)
      (mkEnv (Some "http://test-upstream") (Some "OPENAIapi")) bearer emptyWorld.
Proof.
  apply (configured_case_irrelevant asciiLower JsonReader.parse (answering scenarioA)
           testEnv
           (mkEnv (Some "http://test-upstream") (Some "OPENAIapi")) bearer emptyWorld).
  - exact asciiLower_respects_ascii_case.
  - reflexivity.
  - reflexivity.
Defined.

(** ** Payloads without models *)

Lemma props_get_all_empty (o : Props) (k : string) :
  (forall k' v, In (k', v) o -> v = JArr []) ->
  props_get o k = JUndefined \/ props_get o k = JArr [].
Proof.
  induction o as [|[k0 v0] o IH]; intros H; simpl; [now left|].
  destruct (String.eqb k0 k).
  - right. apply (H k0). now left.
  - apply IH. intros k' v Hin. apply (H k'). now right.
Qed.

Lemma buildModelMap_no_mention (o : Props) :
  (forall m, ~ mentions o m) -> buildModelMap (JObj o) = [].
Proof.
  intros H. destruct (buildModelMap (JObj o)) as [|[m ps] mm] eqn:E; [reflexivity|].
  exfalso. apply (H m). apply buildModelMap_keys. rewrite E. now left.
Qed.

(** X7.  A payload object all of whose values are empty arrays, the empty
    object among them, has an empty canonical list under whichever rule
    takes it, so [getModels] fails with the no-models-found message built
    from the payload itself. *)
Theorem empty_lists_give_not_found (toLowerCase : string -> string)
    (JSON_parse : string -> option JsVal)
    (upstream_answer : UpstreamRequest -> AxiosResponse) (env : Env)
    (headers : Headers) (w : World) (o : Props) :
  data (upstream_answer (modelsRequest env headers)) = JObj o ->
  (forall k v, In (k, v) o -> v = JArr []) ->
  canonical JSON_parse (JObj o) = []
  /\ fst (getModels toLowerCase JSON_parse upstream_answer env headers w)
     = Throw (NotFoundException
                (noModelsFoundMsg (providerKey toLowerCase env) (LLM_UPSTREAM env)
                   (sample (JObj o) 1000))).
Proof.
  intros Hd Hall.
  assert (HC : canonical JSON_parse (JObj o) = []).
  { unfold canonical, classify.
    destruct (props_get_all_empty o "models" Hall) as [-> | ->]; [|reflexivity].
    destruct (props_get_all_empty o "data" Hall) as [-> | ->]; [|reflexivity].
    destruct (isProviderKeyedFormat (JObj o)); [|reflexivity].
    rewrite buildModelMap_no_mention; [reflexivity|].
    intros m (p & v & Hin & Hm). rewrite (Hall p v Hin) in Hm. exact Hm. }
  split; [exact HC|].
  rewrite getModels_world. cbn [fst]. now rewrite Hd, HC.
Qed.

Lemma empty_lists_give_not_found_witness :
  canonical JsonReader.parse (JObj [("Anthropic", JArr []); ("OpenaiAPI", JArr [])]) = []
  /\ fst (getModels asciiLower JsonReader.parse
            (answering (JObj [("Anthropic", JArr []); ("OpenaiAPI", JArr [])]))
            testEnv bearer emptyWorld)
     = Throw (NotFoundException
                (noModelsFoundMsg "openaiapi" (Some "http://test-upstream")
                   (sample (JObj [("Anthropic", JArr []); ("OpenaiAPI", JArr [])])
                      1000))).
Proof.
  apply (empty_lists_give_not_found asciiLower JsonReader.parse
           (answering (JObj [("Anthropic", JArr []); ("OpenaiAPI", JArr [])]))
           testEnv bearer emptyWorld
           [("Anthropic", JArr []); ("OpenaiAPI", JArr [])] eq_refl).
  intros k v [H|[H|[]]]; now inversion H.
Defined.

(** X8.  The provider-keyed rule is all or nothing: in an object without
    an array-valued [models] or [data] field, one value that is not an
    array of strings makes the whole payload unrecognised, whatever the
    other providers list; the canonical list is empty, a warning is
    written and [getModels] fails with the no-models-found message. *)
Theorem one_bad_value_rejects_payload (toLowerCase : string -> string)
    (JSON_parse : string -> option JsVal)
    (upstream_answer : UpstreamRequest -> AxiosResponse) (env : Env)
    (headers : Headers) (w : World) (o : Props) (k : string) (v : JsVal) :
  data (upstream_answer (modelsRequest env headers)) = JObj o ->
  Array_isArray (props_get o "models") = false ->
  Array_isArray (props_get o "data") = false ->
  In (k, v) o ->
  stringArray v = false ->
  classify (JObj o) = Unrecognized
  /\ canonical JSON_parse (JObj o) = []
  /\ existsb is_warning (normalizeLog JSON_parse (modelsUrl env) (JObj o)) = true
  /\ fst (getModels toLowerCase JSON_parse upstream_answer env headers w)
     = Throw (NotFoundException
                (noModelsFoundMsg (providerKey toLowerCase env) (LLM_UPSTREAM env)
                   (sample (JObj o) 1000))).
Proof.
  intros Hd HM HD Hin Hbad.
  assert (HP : isProviderKeyedFormat (JObj o) = false).
  { destruct (isProviderKeyedFormat (JObj o)) eqn:E; [|reflexivity].
    unfold isProviderKeyedFormat in E. rewrite forallb_forall in E.
    specialize (E v). unfold stringArray in Hbad. rewrite E in Hbad; [discriminate|].
    unfold Object_values. cbn [Object_entries].
    apply in_map_iff. now exists (k, v). }
  assert (HC : classify (JObj o) = Unrecognized).
  { unfold classify. rewrite HP.
    destruct (props_get o "models"); try discriminate;
      destruct (props_get o "data"); try discriminate; reflexivity. }
  assert (HL : canonical JSON_parse (JObj o) = [])
    by (unfold canonical; now rewrite HC).
  split; [exact HC|]. split; [exact HL|]. split.
  - unfold normalizeLog. now rewrite HC.
  - rewrite getModels_world. cbn [fst]. now rewrite Hd, HL.
Qed.

Lemma one_bad_value_rejects_payload_witness :
  let o := [("OpenaiAPI", JArr [JStr "gpt-4"]); ("Broken", JArr [JNum 1])] in
  classify (JObj o) = Unrecognized
  /\ canonical JsonReader.parse (JObj o) = []
  /\ existsb is_warning (normalizeLog JsonReader.parse (modelsUrl testEnv) (JObj o)) = true
  /\ fst (getModels asciiLower JsonReader.parse (answering (JObj o)) testEnv bearer emptyWorld)
     = Throw (NotFoundException
                (noModelsFoundMsg (providerKey asciiLower testEnv) (LLM_UPSTREAM testEnv)
                   (sample (JObj o) 1000))).
Proof.
  cbv zeta.
  apply (one_bad_value_rejects_payload asciiLower JsonReader.parse
           (answering (JObj [("OpenaiAPI", JArr [JStr "gpt-4"]); ("Broken", JArr [JNum 1])]))
           testEnv bearer emptyWorld
           [("OpenaiAPI", JArr [JStr "gpt-4"]); ("Broken", JArr [JNum 1])]
           "Broken" (JArr [JNum 1]));
    try reflexivity.
  right. now left.
Defined.

(** ** Records in the filter *)

Lemma existsb_map_comp {A B} (f : B -> bool) (g : A -> B) (l : list A) :
  existsb f (map g l) = existsb (fun x => f (g x)) l.
Proof. induction l as [|x l IH]; simpl; [reflexivity | now rewrite IH]. Qed.

Lemma someProvider_skip (toLowerCase : string -> string) (key : string)
    (before rest : list JsVal) :
  (forall q, In q before -> exists u, js_String q = Some u /\ toLowerCase u <> key) ->
  someProvider toLowerCase key (before ++ rest) = someProvider toLowerCase key rest.
Proof.
  induction before as [|q before IH]; intros H; [reflexivity|].
  cbn [app someProvider]. unfold providerIs.
  destruct (H q (or_introl eq_refl)) as (u & -> & Hu).
  destruct (String.eqb_spec (toLowerCase u) key); [contradiction|].
  apply IH. intros q' Hq'. apply H. now right.
Qed.

(** X9.  The filter callback on a record other than [null] and
    [undefined].  A [providers] string matches when, lower-cased, it is
    the key; a [providers] object matches by its keys alone, the values
    under them playing no part; a [providers] that is neither array,
    object nor string never matches.  The items of a [providers] array
    are converted to strings and compared in order: the first one that is
    the key makes the record match without the later items being looked
    at; an item whose conversion raises, met before any match, makes the
    callback raise a TypeError; when every item converts and none is the
    key the record does not match. *)
Theorem providers_tolerance
    (toLowerCase : string -> string) (key : string) (r : JsVal) (w : World) :
  nullish r = false ->
  (forall s, field r "providers" = JStr s ->
             matchesProvider toLowerCase key r w
             = (Ret (String.eqb (toLowerCase s) key), w))
  /\ (forall po, field r "providers" = JObj po ->
                 matchesProvider toLowerCase key r w
                 = (Ret (existsb (fun k => String.eqb (toLowerCase k) key) (map fst po)),
                    w))
  /\ (other_shape (field r "providers") = true ->
      matchesProvider toLowerCase key r w = (Ret false, w))
  /\ (forall items before p after,
        field r "providers" = JArr items ->
        items = (before ++ p :: after)%list ->
        (forall q, In q before ->
                   exists u, js_String q = Some u /\ toLowerCase u <> key) ->
        ((exists t, js_String p = Some t /\ toLowerCase t = key) ->
         matchesProvider toLowerCase key r w = (Ret true, w))
        /\ (js_String p = None ->
            matchesProvider toLowerCase key r w = (Throw TypeError, w)))
  /\ (forall items,
        field r "providers" = JArr items ->
        (forall q, In q items ->
                   exists u, js_String q = Some u /\ toLowerCase u <> key) ->
        matchesProvider toLowerCase key r w = (Ret false, w)).
Proof.
  intros Hn. rewrite matchesProvider_eval. unfold matchesKey, providersOf.
  rewrite Hn. repeat split.
  - intros s ->. cbn [someProvider]. unfold providerIs. cbn [js_String].
    now destruct (String.eqb (toLowerCase s) key).
  - intros po ->. now rewrite someProvider_strings.
  - destruct (field r "providers"); try discriminate; reflexivity.
  - intros (t & Ht & Hk). rewrite H, H0, (someProvider_skip _ _ _ _ H1).
    cbn [someProvider]. unfold providerIs. rewrite Ht.
    apply String.eqb_eq in Hk. now rewrite Hk.
  - intros Hp. rewrite H, H0, (someProvider_skip _ _ _ _ H1).
    cbn [someProvider]. unfold providerIs. now rewrite Hp.
  - intros items -> Hall.
    rewrite <- (app_nil_r items), (someProvider_skip _ _ _ _ Hall). reflexivity.
Qed.

Lemma providers_tolerance_witness :
  let odd := JObj [("toString", JNum 1)] in
  matchesProvider asciiLower "openaiapi"
    (JObj [("name", JStr "a"); ("providers", JArr [JStr "Other"; JStr "OpenaiAPI"; odd])])
    emptyWorld
  = (Ret true, emptyWorld)
  /\ matchesProvider asciiLower "openaiapi"
       (JObj [("name", JStr "b"); ("providers", JArr [JStr "Other"; odd; JStr "OpenaiAPI"])])
       emptyWorld
     = (Throw TypeError, emptyWorld)
  /\ matchesProvider asciiLower "openaiapi"
       (JObj [("name", JStr "c");
              ("providers", JObj [("Anthropic", JBool true); ("OpenaiAPI", JBool false)])])
       emptyWorld
     = (Ret true, emptyWorld).
Proof.
  cbv zeta. split; [|split].
  - apply (proj1 (proj2 (proj2 (proj2
             (providers_tolerance asciiLower "openaiapi"
                (JObj [("name", JStr "a");
                       ("providers",
                        JArr [JStr "Other"; JStr "OpenaiAPI";
                              JObj [("toString", JNum 1)]])])
                emptyWorld eq_refl))))
             _ [JStr "Other"] (JStr "OpenaiAPI") [JObj [("toString", JNum 1)]]
             eq_refl eq_refl).
    + intros q [<-|[]]. exists "Other". split; [reflexivity | discriminate].
    + exists "OpenaiAPI". split; reflexivity.
  - apply (proj1 (proj2 (proj2 (proj2
             (providers_tolerance asciiLower "openaiapi"
                (JObj [("name", JStr "b");
                       ("providers",
                        JArr [JStr "Other"; JObj [("toString", JNum 1)];
                              JStr "OpenaiAPI"])])
                emptyWorld eq_refl))))
             _ [JStr "Other"] (JObj [("toString", JNum 1)]) [JStr "OpenaiAPI"]
             eq_refl eq_refl).
    + intros q [<-|[]]. exists "Other". split; [reflexivity | discriminate].
    + reflexivity.
  - exact (proj1 (proj2 (providers_tolerance asciiLower "openaiapi"
                (JObj [("name", JStr "c");
                       ("providers",
                        JObj [("Anthropic", JBool true); ("OpenaiAPI", JBool false)])])
                emptyWorld eq_refl))
             [("Anthropic", JBool true); ("OpenaiAPI", JBool false)] eq_refl).
Defined.

Lemma filterOutcome_nullish (toLowerCase : string -> string) (key : string)
    (models : list JsVal) (r : JsVal) :
  In r models -> nullish r = true -> filterOutcome toLowerCase key models = None.
Proof.
  induction models as [|r0 rest IH]; intros Hin Hn; [contradiction|].
  cbn [filterOutcome]. destruct Hin as [->|Hin].
  - unfold matchesKey at 1. now rewrite Hn.
  - rewrite (IH Hin Hn). now destruct (matchesKey toLowerCase key r0).
Qed.

(** X10.  One [null] or [undefined] record anywhere in the canonical list
    makes [getModels] fail with a TypeError, whatever the other records
    are, even when some of them match the configured provider; no error
    line is written for it. *)
Theorem nullish_record_fails_whole_call (toLowerCase : string -> string)
    (JSON_parse : string -> option JsVal)
    (upstream_answer : UpstreamRequest -> AxiosResponse) (env : Env)
    (headers : Headers) (w : World) (r : JsVal) :
  In r (canonical JSON_parse (data (upstream_answer (modelsRequest env headers)))) ->
  nullish r = true ->
  fst (getModels toLowerCase JSON_parse upstream_answer env headers w) = Throw TypeError
  /\ exists lines,
       logs (snd (getModels toLowerCase JSON_parse upstream_answer env headers w))
       = (logs w ++ lines)%list
       /\ existsb is_error lines = false.
Proof.
  intros Hin Hn. rewrite getModels_world. cbn [fst snd logs].
  set (resp := upstream_answer (modelsRequest env headers)) in *.
  assert (HO : expectedOutcome toLowerCase env (data resp) (canonical JSON_parse (data resp))
               = Throw TypeError).
  { unfold expectedOutcome.
    destruct (canonical JSON_parse (data resp)) as [|r0 rest] eqn:E; [contradiction|].
    rewrite <- E in *.
    now rewrite (filterOutcome_nullish toLowerCase _ _ r Hin Hn). }
  split; [exact HO|].
  eexists. split; [reflexivity|].
  unfold getModelsLog. rewrite HO. cbn [existsb outcomeLog is_error level orb].
  rewrite app_nil_r. apply normalizeLog_no_error.
Qed.

Lemma nullish_record_fails_whole_call_witness :
  fst (getModels asciiLower JsonReader.parse
         (answering (JArr [JObj [("name", JStr "gpt-4");
                                 ("providers", JArr [JStr "OpenaiAPI"])];
                           JNull]))
         testEnv bearer emptyWorld)
  = Throw TypeError.
Proof.
  apply (nullish_record_fails_whole_call asciiLower JsonReader.parse
           (answering (JArr [JObj [("name", JStr "gpt-4");
                                   ("providers", JArr [JStr "OpenaiAPI"])];
                             JNull]))
           testEnv bearer emptyWorld JNull).
  - right. now left.
  - reflexivity.
Defined.

(** X11.  A non-empty list none of whose records has a [providers] field
    (bare model names, numbers, booleans, nested arrays, objects without
    the field) is never accepted: whatever provider is configured,
    [getModels] fails with the no-match message built from the first five
    of them. *)
Theorem bare_names_never_match
    (toLowerCase : string -> string)
    (JSON_parse : string -> option JsVal)
    (upstream_answer : UpstreamRequest -> AxiosResponse) (env : Env)
    (headers : Headers) (w : World) :
  let models :=
    canonical JSON_parse (data (upstream_answer (modelsRequest env headers))) in
  models <> [] ->
  (forall r, In r models -> nullish r = false /\ field r "providers" = JUndefined) ->
  fst (getModels toLowerCase JSON_parse upstream_answer env headers w)
  = Throw (NotFoundException
             (noModelsMatchedMsg (providerKey toLowerCase env) (LLM_UPSTREAM env)
                (sample (JArr (firstn 5 models)) 1000))).
Proof.
  intros models Hne Hall. rewrite getModels_world. cbn [fst]. fold models.
  unfold expectedOutcome.
  destruct models as [|r0 rest] eqn:E; [now elim Hne|]. rewrite <- E in *.
  assert (filterOutcome toLowerCase (providerKey toLowerCase env) models = Some [])
    as ->; [|reflexivity].
  clear E Hne. induction models as [|r l IH]; [reflexivity|].
  cbn [filterOutcome]. destruct (Hall r (or_introl eq_refl)) as [Hn Hp].
  unfold matchesKey at 1, providersOf. rewrite Hn, Hp. cbn [someProvider].
  rewrite IH; [reflexivity|]. intros r' Hin. apply Hall. now right.
Qed.

Lemma bare_names_never_match_witness :
  fst (getModels asciiLower JsonReader.parse
         (answering (JObj [("models", JArr [JStr "gpt-4"; JStr "gpt-3.5-turbo"])]))
         testEnv bearer emptyWorld)
  = Throw (NotFoundException
             (noModelsMatchedMsg "openaiapi" (Some "http://test-upstream")
                (sample (JArr [JStr "gpt-4"; JStr "gpt-3.5-turbo"]) 1000))).
Proof.
  apply (bare_names_never_match asciiLower JsonReader.parse
           (answering (JObj [("models", JArr [JStr "gpt-4"; JStr "gpt-3.5-turbo"])]))
           testEnv bearer emptyWorld).
  - discriminate.
  - intros r [<-|[<-|[]]]; split; reflexivity.
Defined.

(** ** Truncation *)

Lemma length_substring_exact (n : nat) (s : string) :
  n <= String.length s -> String.length (substring 0 n s) = n.
Proof.
  revert s. induction n as [|n IH]; intros [|c s] H; simpl in *;
    try lia; try reflexivity.
  rewrite IH; lia.
Qed.

Lemma prefix_substring (n : nat) (s : string) : prefix (substring 0 n s) s = true.
Proof.
  revert s. induction n as [|n IH]; intros [|c s]; simpl; try reflexivity.
  destruct (ascii_dec c c); [apply IH | contradiction].
Qed.

(** X12.  [safeStringify] returns a text of at most [max] code units as it
    is; of a longer text it returns the first [max] code units followed by
    the truncation mark.  The text is the value itself for a string, and
    the JSON text of any other value. *)
Theorem safeStringify_truncation (v : JsVal) (max : nat) (w : World) (text : string) :
  sourceText v = Some text ->
  (String.length text <= max -> safeStringify v max w = (Ret text, w))
  /\ (max < String.length text ->
      exists head,
        safeStringify v max w = (Ret (head ++ "... (truncated)"), w)
        /\ String.length head = max
        /\ prefix head text = true).
Proof.
  intros Hs. rewrite safeStringify_returns.
  assert (E : sample v max = truncate max text).
  { unfold sample. destruct v; cbn [sourceText] in Hs; try (now rewrite Hs).
    now inversion Hs. }
  rewrite E. unfold truncate. split; intros H.
  - apply Nat.ltb_ge in H. now rewrite H.
  - pose proof H as H'. apply Nat.ltb_lt in H'. rewrite H'.
    exists (substring 0 max text). split; [reflexivity|].
    split; [apply length_substring_exact; lia | apply prefix_substring].
Qed.

Lemma safeStringify_truncation_witness :
  (exists head,
     safeStringify (JArr [JNum 12345; JNum 67890]) 5 emptyWorld
     = (Ret (head ++ "... (truncated)"), emptyWorld)
     /\ String.length head = 5
     /\ prefix head "[12345,67890]" = true)
  /\ safeStringify (JStr "short") 5 emptyWorld = (Ret "short", emptyWorld).
Proof.
  split.
  - apply (proj2 (safeStringify_truncation (JArr [JNum 12345; JNum 67890]) 5
                    emptyWorld "[12345,67890]" eq_refl)).
    simpl. lia.
  - apply (proj1 (safeStringify_truncation (JStr "short") 5 emptyWorld "short" eq_refl)).
    simpl. lia.
Defined.

(** ** Forwarding a completion *)

Lemma props_set_idempotent (o : Props) (k : string) (v : JsVal) :
  props_set (props_set o k v) k v = props_set o k v.
Proof.
  induction o as [|[k0 v0] o IH]; simpl.
  - now rewrite String.eqb_refl.
  - destruct (String.eqb k0 k) eqn:E; simpl; rewrite E; [reflexivity | now rewrite IH].
Qed.

Lemma props_set_keys (o : Props) (k : string) (v : JsVal) :
  map fst (props_set o k v)
  = if existsb (String.eqb k) (map fst o) then map fst o
    else (map fst o ++ [k])%list.
Proof.
  induction o as [|[k0 v0] o IH]; simpl; [reflexivity|].
  rewrite (String.eqb_sym k k0). destruct (String.eqb k0 k); simpl; [reflexivity|].
  rewrite IH. now destruct (existsb (String.eqb k) (map fst o)).
Qed.

Lemma heap_update_idempotent (h : list Props) (l : loc) (o x : Props) :
  nth_error h l = Some o ->
  (firstn l (firstn l h ++ x :: skipn (S l) h)
     ++ x :: skipn (S l) (firstn l h ++ x :: skipn (S l) h))%list
  = (firstn l h ++ x :: skipn (S l) h)%list.
Proof.
  revert h. induction l as [|l IH]; intros [|o0 h] H; simpl in *; try discriminate.
  - reflexivity.
  - f_equal. now apply IH.
Qed.

Lemma heap_update_length (h : list Props) (l : loc) (o x : Props) :
  nth_error h l = Some o ->
  List.length (firstn l h ++ x :: skipn (S l) h) = List.length h.
Proof.
  revert h. induction l as [|l IH]; intros [|o0 h] H; simpl in *; try discriminate.
  - reflexivity.
  - f_equal. now apply IH.
Qed.

(** X13.  Forwarding the same body object again is harmless:
    [postCompletions] builds the same request and leaves the state exactly
    as the first call left it.  The first call keeps the body's properties
    in their order, a [provider] property staying where it was and a new
    one going last, and allocates nothing. *)
Theorem postCompletions_idempotent
    (env : Env) (headers : Headers) (w : World) (l : loc) (o : Props) :
  nth_error (heap w) l = Some o ->
  exists req w1 o1,
    postCompletions env (Some l) headers w = (Ret req, w1)
    /\ postCompletions env (Some l) headers w1 = (Ret req, w1)
    /\ nth_error (heap w1) l = Some o1
    /\ map fst o1
       = (if existsb (String.eqb "provider") (map fst o) then map fst o
          else map fst o ++ ["provider"])%list
    /\ List.length (heap w1) = List.length (heap w).
Proof.
  intros H. rewrite (postCompletions_eval env headers w l o H).
  set (o1 := props_set o "provider" (configuredProvider env)).
  set (h1 := (firstn l (heap w) ++ o1 :: skipn (S l) (heap w))%list).
  assert (H1 : nth_error h1 l = Some o1) by (eapply heap_update_same; exact H).
  do 3 eexists. split; [reflexivity|]. split.
  - rewrite (postCompletions_eval env headers (mkWorld h1 (logs w) (sent w)) l o1 H1).
    cbn [heap logs sent].
    assert (E1 : props_set o1 "provider" (configuredProvider env) = o1)
      by apply props_set_idempotent.
    rewrite E1. unfold h1. now rewrite (heap_update_idempotent _ _ _ _ H).
  - cbn [heap]. split; [exact H1|]. split; [apply props_set_keys|].
    eapply heap_update_length; exact H.
Qed.

Lemma postCompletions_idempotent_witness :
  let body := [("model", JStr "gpt-4"); ("stream", JBool true)] in
  exists req w1 o1,
    postCompletions testEnv (Some 0) bearer (mkWorld [body] [] []) = (Ret req, w1)
    /\ postCompletions testEnv (Some 0) bearer w1 = (Ret req, w1)
    /\ nth_error (heap w1) 0 = Some o1
    /\ map fst o1 = ["model"; "stream"; "provider"]
    /\ List.length (heap w1) = 1.
Proof.
  exact (postCompletions_idempotent testEnv bearer
           (mkWorld [[("model", JStr "gpt-4"); ("stream", JBool true)]] [] [])
           0 _ eq_refl).
Defined.

(** X14.  The completions handler, end to end.  Given a body object it
    sends exactly one request, the one [postCompletions] built, after the
    provider has been written into the body, and hands back the upstream's
    answer to that request as it is, writing no log line.  Given no body
    it fails with a TypeError before anything is sent, leaving the state
    as it was. *)
Theorem controller_postCompletions_relays
    (upstream_answer : UpstreamRequest -> AxiosResponse) (env : Env)
    (headers : Headers) (w : World) :
  (forall l o,
      nth_error (heap w) l = Some o ->
      exists w',
        controller_postCompletions upstream_answer env (Some l) headers w
        = (Ret (data (upstream_answer (completionsRequest env headers l))), w')
        /\ sent w' = (sent w ++ [completionsRequest env headers l])%list
        /\ logs w' = logs w
        /\ exists o',
             nth_error (heap w') l = Some o'
             /\ props_get o' "provider" = configuredProvider env)
  /\ controller_postCompletions upstream_answer env None headers w
     = (Throw TypeError, w).
Proof.
  split; [|reflexivity].
  intros l o H. unfold controller_postCompletions.
  step (postCompletions_eval env headers w l o H).
  fold (completionsRequest env headers l).
  eexists. split; [reflexivity|]. cbn [heap logs sent].
  split; [reflexivity|]. split; [reflexivity|].
  eexists. split; [eapply heap_update_same; exact H | apply props_get_set_same].
Qed.

Lemma controller_postCompletions_relays_witness :
  exists w',
    controller_postCompletions (answering (JStr "chunk")) testEnv (Some 0) bearer
      (mkWorld [[("model", JStr "gpt-4")]] [] [])
    = (Ret (JStr "chunk"), w')
    /\ sent w' = [completionsRequest testEnv bearer 0]
    /\ logs w' = []
    /\ exists o',
         nth_error (heap w') 0 = Some o'
         /\ props_get o' "provider" = JStr "OpenaiAPI".
Proof.
  exact (proj1 (controller_postCompletions_relays (answering (JStr "chunk")) testEnv
                  bearer (mkWorld [[("model", JStr "gpt-4")]] [] []))
           0 [("model", JStr "gpt-4")] eq_refl).
Defined.

(** ** Inbound headers *)

(** X15.  Of the inbound headers only [authorization] reaches the
    service: two requests that agree on it make [getModels] behave
    identically, outcome, log and request sent, and make
    [postCompletions] build the same request and leave the same state, so
    that no other inbound header is ever forwarded upstream. *)
Theorem only_authorization_is_read (toLowerCase : string -> string)
    (JSON_parse : string -> option JsVal)
    (upstream_answer : UpstreamRequest -> AxiosResponse) (env : Env)
    (h1 h2 : Headers) (body : option loc) (w : World) :
  header_get h1 "authorization" = header_get h2 "authorization" ->
  getModels toLowerCase JSON_parse upstream_answer env h1 w
  = getModels toLowerCase JSON_parse upstream_answer env h2 w
  /\ postCompletions env body h1 w = postCompletions env body h2 w
  /\ (forall req, In req (sent (snd (getModels toLowerCase JSON_parse upstream_answer env h1 w))) ->
                  In req (sent w)
                  \/ req_headers req = auth_headers (header_get h1 "authorization")).
Proof.
  intros H. split; [|split].
  - unfold getModels. now rewrite H.
  - unfold postCompletions. now rewrite H.
  - intros req. rewrite getModels_world. cbn [snd sent]. rewrite in_app_iff.
    intros [Hin|[<-|[]]]; [now left | now right].
Qed.

Lemma only_authorization_is_read_witness :
  getModels asciiLower JsonReader.parse (answering scenarioA) testEnv
    [("cookie", "session=1"); ("authorization", "Bearer test")] emptyWorld
  = getModels asciiLower JsonReader.parse (answering scenarioA) testEnv bearer emptyWorld.
Proof.
  exact (proj1 (only_authorization_is_read asciiLower JsonReader.parse (answering scenarioA)
                  testEnv [("cookie", "session=1"); ("authorization", "Bearer test")]
                  bearer None emptyWorld eq_refl)).
Defined.
